(** * vtkPhyloXMLTreeWriter: a shallow embedding of the PhyloXML tree writer

    Source: IO/Infovis/vtkPhyloXMLTreeWriter.cxx.

    The writer walks a [vtkTree] and builds a [vtkXMLDataElement] document.
    The collaborators (tree, arrays, variants, the XML element builder and
    the output stream) are modelled by the small records below; the writer's
    own methods are translated one by one. The member [Blacklist] (the
    "Emission Ledger") is threaded explicitly through the element-building
    methods by a state/error monad; [None] stands for undefined behaviour
    (an out-of-range read or a null dereference). *)

From Stdlib Require Import ZArith List String Ascii Bool Lia.
Import ListNotations.
Set Warnings "-register-all".
Open Scope string_scope.
Open Scope Z_scope.

(** ** Collaborators *)

(** A [vtkVariant] as the writer uses it: [GetTypeAsString], [ToString]
    and the text [SetDoubleAttribute] produces from [ToDouble]. *)
Record variant := mkVariant {
  v_type : string;
  v_str : string;
  v_dbl : string
}.

(** A value held by a [vtkInformation] key: a [vtkInformationStringKey]
    holds a string; any other key kind does not downcast to a string key. *)
Inductive infoval :=
| IStr (s : string)
| INonStr.

(** A [vtkAbstractArray]: [col_id] is the object's identity (the pointer
    compared with [==]); [col_uchar] is [Some (ncomp, data)] exactly when the
    array downcasts to [vtkUnsignedCharArray], with [data] its flat
    component storage. *)
Record column := mkColumn {
  col_id : nat;
  col_name : string;
  col_info : list (string * infoval);
  col_vals : list variant;
  col_uchar : option (nat * list Z)
}.

(** The shape of a rooted tree as [GetRoot], [GetNumberOfChildren] and
    [GetChild] report it: each node carries its vertex id and its children
    in order. *)
Inductive vtree :=
| VNode (v : Z) (kids : list vtree).

Record vtkTree := mkTree {
  VertexData : list column;
  EdgeData : list column;
  Root : vtree;
  GetParent : Z -> Z;
  GetEdgeId : Z -> Z -> Z
}.

(** [vtkFieldData::GetAbstractArray(name)]: the first array of that name. *)
Fixpoint GetAbstractArray (cols : list column) (name : string) : option column :=
  match cols with
  | [] => None
  | c :: cs => if String.eqb (col_name c) name then Some c else GetAbstractArray cs name
  end.

(** [GetVariantValue(i)]; reading outside the array is undefined. *)
Definition GetVariantValue (c : column) (i : Z) : option variant :=
  if i <? 0 then None else nth_error (col_vals c) (Z.to_nat i).

(** [vtkDataArray::GetComponent(tuple, comp)] on an unsigned char array:
    reads [data[tuple * ncomp + comp]] without a bounds check. *)
Definition GetComponent (nc : nat) (data : list Z) (tuple : Z) (comp : nat)
  : option Z :=
  if tuple <? 0 then None
  else nth_error data (Z.to_nat tuple * nc + comp)%nat.

(** [vtkStringArray::LookupValue]: index of the first occurrence, or -1. *)
Fixpoint LookupValue (l : list string) (s : string) : Z :=
  match l with
  | [] => -1
  | x :: xs =>
      if String.eqb x s then 0
      else let i := LookupValue xs s in if i =? -1 then -1 else i + 1
  end.

(** [vtkXMLDataElement]: name, attributes, character data, nested elements. *)
Inductive elem :=
| Elem (name : string) (attrs : list (string * string)) (chardata : string)
       (nested : list elem).

Definition elem_name (e : elem) : string :=
  match e with Elem n _ _ _ => n end.

Definition elem_nested (e : elem) : list elem :=
  match e with Elem _ _ _ ns => ns end.

Definition elem_attrs (e : elem) : list (string * string) :=
  match e with Elem _ a _ _ => a end.

Fixpoint set_assoc (k v : string) (l : list (string * string)) :=
  match l with
  | [] => [(k, v)]
  | (k', v') :: r => if String.eqb k k' then (k, v) :: r else (k', v') :: set_assoc k v r
  end.

(** [SetAttribute]: replaces the value of an existing attribute, appends otherwise. *)
Definition SetAttribute (k v : string) (e : elem) : elem :=
  match e with Elem n a d ns => Elem n (set_assoc k v a) d ns end.

Definition SetCharacterData (s : string) (e : elem) : elem :=
  match e with Elem n a _ ns => Elem n a s ns end.

Definition AddNestedElement (e c : elem) : elem :=
  match e with Elem n a d ns => Elem n a d (ns ++ [c]) end.

Definition NewElement (n : string) : elem := Elem n [] "" [].

(** [vtkVariant(double).ToString()] of a byte component: its decimal text. *)
Fixpoint nat_digits (fuel n : nat) (acc : string) : string :=
  match fuel with
  | O => acc
  | S f =>
      let acc' := String (ascii_of_nat (48 + Nat.modulo n 10)) acc in
      if Nat.ltb n 10 then acc' else nat_digits f (Nat.div n 10) acc'
  end.

Definition z_to_string (z : Z) : string :=
  if z <? 0 then "-" ++ nat_digits (S (Z.abs_nat z)) (Z.abs_nat z) ""
  else nat_digits (S (Z.to_nat z)) (Z.to_nat z) "".

(** ** The writer's state during a document build *)

(** [ls_blacklist] is the member [Blacklist]; [ls_emitted] is a ghost
    record, not present in the C++ object, of the property elements built:
    one entry (vertex argument, array name) per call of
    [WritePropertyElement] that completed (vertex -1 for tree level). *)
Record lstate := mkLstate {
  ls_blacklist : list string;
  ls_emitted : list (Z * string)
}.

Definition M (A : Type) : Type := lstate -> option (A * lstate).

Definition ret {A} (a : A) : M A := fun st => Some (a, st).

Definition bind {A B} (m : M A) (k : A -> M B) : M B :=
  fun st => match m st with
            | None => None
            | Some (a, st') => k a st'
            end.

Notation "'do' x <- m ;; k" := (bind m (fun x => k))
  (at level 200, x name, m at level 100, k at level 200).
Notation "m ;;; k" := (bind m (fun _ => k))
  (at level 100, k at level 200, right associativity).

(** An undefined read, lifted into the monad. *)
Definition lift {A} (o : option A) : M A :=
  fun st => match o with Some a => Some (a, st) | None => None end.

Definition get_blacklist : M (list string) := fun st => Some (ls_blacklist st, st).

(** [IgnoreArray]: [Blacklist->InsertNextValue(arrayName)]. *)
Definition IgnoreArray (arrayName : string) : M unit :=
  fun st => Some (tt, mkLstate (ls_blacklist st ++ [arrayName]) (ls_emitted st)).

Definition record_emitted (vertex : Z) (arrayName : string) : M unit :=
  fun st => Some (tt, mkLstate (ls_blacklist st) (ls_emitted st ++ [(vertex, arrayName)])).

(** The guarded insertion repeated by the clade-level writers:
    [if (Blacklist->LookupValue(name) == -1) IgnoreArray(name);]. *)
Definition ignore_once (name : string) : M unit :=
  do bl <- get_blacklist ;;
  if LookupValue bl name =? -1 then IgnoreArray name else ret tt.

(** The members [EdgeWeightArray] and [NodeNameArray], set by [WriteData]
    and only read while the document is built. *)
Record arrays := mkArrays {
  EdgeWeightArray : option column;
  NodeNameArray : option column
}.

(** [array == this->NodeNameArray] (pointer comparison; null never equals
    an array of the field data). *)
Definition same_array (a : column) (o : option column) : bool :=
  match o with Some b => Nat.eqb (col_id a) (col_id b) | None => false end.

(** ** The writer's methods *)

(** [GetArrayAttribute]: value of the first string key of that name, or "". *)
Fixpoint info_attribute (info : list (string * infoval)) (attributeName : string)
  : string :=
  match info with
  | [] => ""
  | (k, iv) :: r =>
      if String.eqb k attributeName then
        match iv with IStr s => s | INonStr => info_attribute r attributeName end
      else info_attribute r attributeName
  end.

Definition GetArrayAttribute (array : column) (attributeName : string) : string :=
  info_attribute (col_info array) attributeName.

(** The metadata loop at the top of [WritePropertyElement]: each key is
    downcast to a string key and dereferenced; a key of another kind is a
    null dereference. The accumulator is (authority, appliesTo, unit). *)
Fixpoint property_info_scan (info : list (string * infoval))
  (acc : string * string * string) : option (string * string * string) :=
  match info with
  | [] => Some acc
  | (_, INonStr) :: _ => None
  | (k, IStr s) :: r =>
      let '(au, ap, un) := acc in
      let acc' :=
        if String.eqb k "authority" then (s, ap, un)
        else if String.eqb k "applies_to" then (au, s, un)
        else if String.eqb k "unit" then (au, ap, s)
        else acc in
      property_info_scan r acc'
  end.

(** The local name used in [ref]: [arrayName.find("property.")], then
    [substr(strBegin, size - strBegin + 1)]. *)
Definition property_name (arrayName : string) : string :=
  let prefix := "property." in
  let strBegin :=
    match index 0 prefix arrayName with
    | None => 0%nat
    | Some i => (i + String.length prefix)%nat
    end in
  substring strBegin (String.length arrayName - strBegin + 1) arrayName.

(** The [datatype] attribute computed from [GetTypeAsString()]. *)
Definition datatype_of (variantType : string) : string :=
  let datatype :=
    if String.eqb variantType "short" || String.eqb variantType "long" ||
       String.eqb variantType "float" || String.eqb variantType "double"
    then "xsd:" ++ variantType else "xsd:string" in
  if String.eqb variantType "int" then "xsd:integer"
  else if String.eqb variantType "bit" then "xsd:boolean"
  else if String.eqb variantType "char" || String.eqb variantType "signed char"
  then "xsd:byte"
  else if String.eqb variantType "unsigned char" then "xsd:unsignedByte"
  else if String.eqb variantType "unsigned short" then "xsd:unsignedShort"
  else if String.eqb variantType "unsigned int" then "xsd:unsignedInt"
  else if String.eqb variantType "unsigned long" ||
          String.eqb variantType "unsigned __int64" ||
          String.eqb variantType "idtype"
  then "xsd:unsignedLong"
  else if String.eqb variantType "__int64" then "xsd:long"
  else datatype.

(** [WritePropertyElement(array, vertex, element)]. *)
Definition WritePropertyElement (array : column) (vertex : Z) (element : elem)
  : M elem :=
  do acc <- lift (property_info_scan (col_info array) ("", "", "")) ;;
  let '(authority0, appliesTo0, unit) := acc in
  let authority := if String.eqb authority0 "" then "VTK" else authority0 in
  let appliesTo := if String.eqb appliesTo0 "" then "clade" else appliesTo0 in
  let arrayName := col_name array in
  let ref := authority ++ ":" ++ property_name arrayName in
  do row <- (if vertex =? -1 then IgnoreArray arrayName ;;; ret 0 else ret vertex) ;;
  do value <- lift (GetVariantValue array row) ;;
  let datatype := datatype_of (v_type value) in
  let val := v_str value in
  let pe := SetAttribute "applies_to" appliesTo
              (SetAttribute "ref" ref
                 (SetAttribute "datatype" datatype (NewElement "property"))) in
  let pe := if String.eqb unit "" then pe else SetAttribute "unit" unit pe in
  let pe := SetCharacterData val pe in
  record_emitted vertex arrayName ;;;
  ret (AddNestedElement element pe).

(** [WriteTreeLevelElement(input, rootElement, elementName, attributeName)]. *)
Definition WriteTreeLevelElement (input : vtkTree) (rootElement : elem)
  (elementName attributeName : string) : M elem :=
  let arrayName := "phylogeny." ++ elementName in
  match GetAbstractArray (VertexData input) arrayName with
  | None => ret rootElement
  | Some array =>
      do value <- lift (GetVariantValue array 0) ;;
      let element := SetCharacterData (v_str value) (NewElement elementName) in
      let element :=
        if negb (String.eqb attributeName "") then
          let attributeValue := GetArrayAttribute array attributeName in
          if negb (String.eqb attributeValue "")
          then SetAttribute attributeName attributeValue element
          else element
        else element in
      IgnoreArray arrayName ;;;
      ret (AddNestedElement rootElement element)
  end.

(** [WriteTreeLevelProperties(input, element)]: the loop over the vertex
    arrays whose name starts with "phylogeny.property.". *)
Fixpoint tree_level_properties_loop (cols : list column) (element : elem) : M elem :=
  match cols with
  | [] => ret element
  | arr :: rest =>
      if String.prefix "phylogeny.property." (col_name arr) then
        do element' <- WritePropertyElement arr (-1) element ;;
        tree_level_properties_loop rest element'
      else tree_level_properties_loop rest element
  end.

Definition WriteTreeLevelProperties (input : vtkTree) (element : elem) : M elem :=
  tree_level_properties_loop (VertexData input) element.

(** [WriteBranchLengthAttribute(input, vertex, element)]. *)
Definition WriteBranchLengthAttribute (this : arrays) (input : vtkTree) (vertex : Z)
  (element : elem) : M elem :=
  match EdgeWeightArray this with
  | None => ret element
  | Some ewa =>
      do element' <-
        (let parent := GetParent input vertex in
         if negb (parent =? -1) then
           let edge := GetEdgeId input parent vertex in
           if negb (edge =? -1) then
             do weight <- lift (GetVariantValue ewa edge) ;;
             ret (SetAttribute "branch_length" (v_dbl weight) element)
           else ret element
         else ret element) ;;
      ignore_once (col_name ewa) ;;;
      ret element'
  end.

(** [WriteNameElement(vertex, element)]. *)
Definition WriteNameElement (this : arrays) (vertex : Z) (element : elem) : M elem :=
  match NodeNameArray this with
  | None => ret element
  | Some nna =>
      do value <- lift (GetVariantValue nna vertex) ;;
      let name := v_str value in
      let element' :=
        if negb (String.eqb name "")
        then AddNestedElement element (SetCharacterData name (NewElement "name"))
        else element in
      ignore_once (col_name nna) ;;;
      ret element'
  end.

(** [WriteConfidenceElement(input, vertex, element)]. *)
Definition WriteConfidenceElement (input : vtkTree) (vertex : Z) (element : elem)
  : M elem :=
  match GetAbstractArray (VertexData input) "confidence" with
  | None => ret element
  | Some confidenceArray =>
      do value <- lift (GetVariantValue confidenceArray vertex) ;;
      let confidence := v_str value in
      let element' :=
        if negb (String.eqb confidence "") then
          let ce := NewElement "confidence" in
          let type := GetArrayAttribute confidenceArray "type" in
          let ce := if negb (String.eqb type "") then SetAttribute "type" type ce else ce in
          AddNestedElement element (SetCharacterData confidence ce)
        else element in
      ignore_once "confidence" ;;;
      ret element'
  end.

(** [WriteColorElement(input, vertex, element)]: the array named "color" is
    downcast to [vtkUnsignedCharArray]; components 0, 1 and 2 of the
    vertex's tuple are read. *)
Definition WriteColorElement (input : vtkTree) (vertex : Z) (element : elem)
  : M elem :=
  match GetAbstractArray (VertexData input) "color" with
  | None => ret element
  | Some arr =>
      match col_uchar arr with
      | None => ret element
      | Some (nc, data) =>
          do r <- lift (GetComponent nc data vertex 0) ;;
          do g <- lift (GetComponent nc data vertex 1) ;;
          do b <- lift (GetComponent nc data vertex 2) ;;
          let red := SetCharacterData (z_to_string r) (NewElement "red") in
          let green := SetCharacterData (z_to_string g) (NewElement "green") in
          let blue := SetCharacterData (z_to_string b) (NewElement "blue") in
          let colorElement :=
            AddNestedElement (AddNestedElement (AddNestedElement
              (NewElement "color") red) green) blue in
          let element' := AddNestedElement element colorElement in
          ignore_once "color" ;;;
          ret element'
      end
  end.

(** The loop of [WriteCladeElement] over the vertex arrays that writes the
    remaining ones as generic properties. *)
Fixpoint clade_properties_loop (this : arrays) (vertex : Z) (cols : list column)
  (element : elem) : M elem :=
  match cols with
  | [] => ret element
  | array :: rest =>
      if same_array array (NodeNameArray this) || same_array array (EdgeWeightArray this)
      then clade_properties_loop this vertex rest element
      else
        do bl <- get_blacklist ;;
        if negb (LookupValue bl (col_name array) =? -1)
        then clade_properties_loop this vertex rest element
        else
          do element' <- WritePropertyElement array vertex element ;;
          clade_properties_loop this vertex rest element'
  end.

(** The loop of [WriteCladeElement] over the children of a vertex: each
    child's clade, built by [writeChild], is appended in the order
    [GetChild] reports. *)
Fixpoint WriteChildrenClades (writeChild : vtree -> M elem) (ks : list vtree)
  (cladeElement : elem) : M elem :=
  match ks with
  | [] => ret cladeElement
  | k :: ks' =>
      do c <- writeChild k ;;
      WriteChildrenClades writeChild ks' (AddNestedElement cladeElement c)
  end.

(** [WriteCladeElement(input, vertex, parentElement)]: returns the clade
    element that the C++ code appends to [parentElement]. *)
Fixpoint WriteCladeElement (this : arrays) (input : vtkTree) (t : vtree) : M elem :=
  match t with
  | VNode vertex kids =>
      let cladeElement := NewElement "clade" in
      do e1 <- WriteBranchLengthAttribute this input vertex cladeElement ;;
      do e2 <- WriteNameElement this vertex e1 ;;
      do e3 <- WriteConfidenceElement input vertex e2 ;;
      do e4 <- WriteColorElement input vertex e3 ;;
      do e5 <- clade_properties_loop this vertex (VertexData input) e4 ;;
      WriteChildrenClades (WriteCladeElement this input) kids e5
  end.

(** Lines 97-108 of [WriteData]: the [phylogeny] element and its content. *)
Definition BuildPhylogeny (this : arrays) (input : vtkTree) : M elem :=
  let rootElement := SetAttribute "rooted" "true" (NewElement "phylogeny") in
  do r1 <- WriteTreeLevelElement input rootElement "name" "" ;;
  do r2 <- WriteTreeLevelElement input r1 "description" "" ;;
  do r3 <- WriteTreeLevelElement input r2 "confidence" "type" ;;
  do r4 <- WriteTreeLevelProperties input r3 ;;
  do c <- WriteCladeElement this input (Root input) ;;
  ret (AddNestedElement r4 c).

(** ** Output stream and the writer object *)

(** An [ostream]: the text written so far, its fail bit, the outcome of
    each successive [flush] on the device (true = the flush fails), and the
    value [vtkErrorCode::GetLastSystemError()] reports. *)
Record ostream := mkOstream {
  os_text : string;
  os_failed : bool;
  os_flush_fails : list bool;
  os_errno : Z
}.

Definition os_write (s : string) (os : ostream) : ostream :=
  mkOstream (os_text os ++ s) (os_failed os) (os_flush_fails os) (os_errno os).

Definition os_flush (os : ostream) : ostream :=
  match os_flush_fails os with
  | [] => os
  | f :: rest => mkOstream (os_text os) (os_failed os || f) rest (os_errno os)
  end.

(** Modelled from the spec: [vtkXMLDataElement::PrintXML], the document
    builder's serialization of an element tree (an external collaborator
    whose escaping and indentation the spec leaves to the builder). *)
Definition dquote : string := String (ascii_of_nat 34) EmptyString.

Fixpoint PrintXML (e : elem) : string :=
  match e with
  | Elem n a d ns =>
      "<" ++ n ++
      fold_right (fun kv acc => " " ++ fst kv ++ "=" ++ dquote ++ snd kv ++ dquote ++ acc) "" a ++
      ">" ++ d ++ fold_right (fun c acc => PrintXML c ++ acc) "" ns ++
      "</" ++ n ++ ">" ++ String (ascii_of_nat 10) EmptyString
  end.

(** The members of a [vtkPhyloXMLTreeWriter] this file uses. *)
Record writer := mkWriter {
  EdgeWeightArrayName : string;
  NodeNameArrayName : string;
  Arrays : arrays;
  Blacklist : list string;
  ErrorCode : Z;
  Stream : ostream
}.

Definition set_arrays (a : arrays) (w : writer) : writer :=
  mkWriter (EdgeWeightArrayName w) (NodeNameArrayName w) a (Blacklist w) (ErrorCode w) (Stream w).
Definition set_blacklist (bl : list string) (w : writer) : writer :=
  mkWriter (EdgeWeightArrayName w) (NodeNameArrayName w) (Arrays w) bl (ErrorCode w) (Stream w).
Definition set_error_code (c : Z) (w : writer) : writer :=
  mkWriter (EdgeWeightArrayName w) (NodeNameArrayName w) (Arrays w) (Blacklist w) c (Stream w).
Definition set_stream (os : ostream) (w : writer) : writer :=
  mkWriter (EdgeWeightArrayName w) (NodeNameArrayName w) (Arrays w) (Blacklist w) (ErrorCode w) os.

(** The constructor: default array names, null array members, a new empty
    [Blacklist]; [os] is the stream the I/O setup later attaches. *)
Definition vtkPhyloXMLTreeWriter_new (os : ostream) : writer :=
  mkWriter "weight" "node name" (mkArrays None None) [] 0 os.

Definition phyloxml_header : string :=
  "<phyloxml xmlns:xsi=" ++ dquote ++ "http://www.w3.org/2001/XMLSchema-instance" ++ dquote ++
  " xmlns=" ++ dquote ++ "http://www.phyloxml.org" ++ dquote ++ " xsi:schemaLocation=" ++
  dquote ++ "http://www.phyloxml.org http://www.phyloxml.org/1.10/phyloxml.xsd" ++ dquote ++
  ">" ++ String (ascii_of_nat 10) EmptyString.

(** [os.flush(); if (os.fail()) { SetErrorCode(GetLastSystemError()); return 0; } return 1;] *)
Definition flush_and_check (w : writer) : Z * writer :=
  let os := os_flush (Stream w) in
  let w' := set_stream os w in
  if os_failed os then (0, set_error_code (os_errno os) w') else (1, w').

(** [StartFile()]. *)
Definition StartFile (w : writer) : Z * writer :=
  flush_and_check (set_stream (os_write phyloxml_header (Stream w)) w).

(** [EndFile()]. *)
Definition EndFile (w : writer) : Z * writer :=
  flush_and_check
    (set_stream (os_write ("</phyloxml>" ++ String (ascii_of_nat 10) EmptyString) (Stream w)) w).

(** [WriteData()]: [None] when building the document reads out of range or
    dereferences null. *)
Definition WriteData (w : writer) (input : vtkTree) : option (Z * writer) :=
  let this := mkArrays (GetAbstractArray (EdgeData input) (EdgeWeightArrayName w))
                       (GetAbstractArray (VertexData input) (NodeNameArrayName w)) in
  let w1 := set_arrays this w in
  let (started, w2) := StartFile w1 in
  if started =? 0 then Some (0, w2)
  else
    match BuildPhylogeny this input (mkLstate (Blacklist w2) []) with
    | None => None
    | Some (rootElement, st) =>
        let w3 := set_blacklist (ls_blacklist st) w2 in
        let w4 := set_stream (os_write (PrintXML rootElement) (Stream w3)) w3 in
        let (_, w5) := EndFile w4 in
        Some (1, w5)
    end.

(** ** Specification-side notions *)

(** The nesting of [clade] elements: a node of the shape per clade element,
    children in document order. *)
Inductive shape :=
| Shape (kids : list shape).

Fixpoint tree_shape (t : vtree) : shape :=
  match t with VNode _ kids => Shape (map tree_shape kids) end.

Fixpoint tree_size (t : vtree) : nat :=
  match t with VNode _ kids => S (fold_right (fun k n => (tree_size k + n)%nat) 0%nat kids) end.

(** The [clade] elements nested directly in [e], each with its own nesting. *)
Fixpoint clades (e : elem) : list shape :=
  match e with
  | Elem _ _ _ ns =>
      flat_map (fun c => if String.eqb (elem_name c) "clade"
                         then [Shape (clades c)] else []) ns
  end.

(** Every element named [clade] anywhere in [e], [e] included. *)
Fixpoint count_clades (e : elem) : nat :=
  match e with
  | Elem n _ _ ns =>
      ((if String.eqb n "clade" then 1 else 0) +
       fold_right (fun c k => (count_clades c + k)%nat) 0%nat ns)%nat
  end.

(** Vertex ids are ids of [vtkTree], never negative. *)
Fixpoint ids_nonneg (t : vtree) : Prop :=
  match t with VNode v kids => 0 <= v /\ fold_right (fun k P => ids_nonneg k /\ P) True kids end.

(** The names of the five fixed categories present in a write: the
    configured edge weight and node name arrays, [confidence], [color] when
    it is an unsigned char array, the tree-level [phylogeny.name],
    [phylogeny.description], [phylogeny.confidence], and every vertex array
    whose name starts with [phylogeny.property.]. *)
Definition fixed_category_name (this : arrays) (input : vtkTree) (n : string) : Prop :=
  (exists c, EdgeWeightArray this = Some c /\ col_name c = n) \/
  (exists c, NodeNameArray this = Some c /\ col_name c = n) \/
  (n = "confidence" /\ GetAbstractArray (VertexData input) "confidence" <> None) \/
  (n = "color" /\ exists c p, GetAbstractArray (VertexData input) "color" = Some c /\
                             col_uchar c = Some p) \/
  ((n = "phylogeny.name" \/ n = "phylogeny.description" \/ n = "phylogeny.confidence") /\
   GetAbstractArray (VertexData input) n <> None) \/
  (String.prefix "phylogeny.property." n = true /\
   exists c, In c (VertexData input) /\ col_name c = n).

(** The metadata value of a key, read as a map (first entry of that name). *)
Fixpoint meta_value (k : string) (info : list (string * infoval)) : option string :=
  match info with
  | [] => None
  | (k', IStr s) :: r => if String.eqb k' k then Some s else meta_value k r
  | (_, INonStr) :: r => meta_value k r
  end.

Fixpoint drop_chars (n : nat) (s : string) : string :=
  match n, s with
  | O, _ => s
  | S n', EmptyString => EmptyString
  | S n', String _ s' => drop_chars n' s'
  end.

(** The name after the first occurrence of [property.], wherever it is. *)
Fixpoint after_property (s : string) : option string :=
  if String.prefix "property." s then Some (drop_chars 9 s)
  else match s with
       | EmptyString => None
       | String _ s' => after_property s'
       end.

(** The [ref] the amended claim describes. *)
Definition expected_ref (array : column) : string :=
  let authority :=
    match meta_value "authority" (col_info array) with
    | Some a => if String.eqb a "" then "VTK" else a
    | None => "VTK"
    end in
  let localName :=
    match after_property (col_name array) with
    | Some r => r
    | None => col_name array
    end in
  authority ++ ":" ++ localName.

Fixpoint attr_lookup (k : string) (l : list (string * string)) : option string :=
  match l with
  | [] => None
  | (k', v) :: r => if String.eqb k' k then Some v else attr_lookup k r
  end.

(** The type names [datatype_of] recognises. *)
Definition recognized_type_names : list string :=
  ["short"; "long"; "float"; "double"; "int"; "bit"; "char"; "signed char";
   "unsigned char"; "unsigned short"; "unsigned int"; "unsigned long";
   "unsigned __int64"; "idtype"; "__int64"].

(** Running a write on a freshly attached stream: the return value and the
    text written to that stream. *)
Definition run_write (w : writer) (input : vtkTree) (os : ostream)
  : option (Z * string * writer) :=
  match WriteData (set_stream os w) input with
  | Some (r, w') => Some (r, os_text (Stream w'), w')
  | None => None
  end.

(** The observable result of a write: its return value and the text. *)
Definition write_output (w : writer) (input : vtkTree) (os : ostream) : option (Z * string) :=
  match run_write w input os with
  | Some (r, txt, _) => Some (r, txt)
  | None => None
  end.

(** What one of the guarded insertions adds to the ledger [bl]. *)
Definition guard_add (bl : list string) (nm : option string) : list string :=
  match nm with
  | Some n => if LookupValue bl n =? -1 then [n] else []
  | None => []
  end.

(** The name each clade-level fixed writer inserts, when it applies. *)
Definition edge_weight_fixed (this : arrays) : option string :=
  option_map col_name (EdgeWeightArray this).
Definition node_name_fixed (this : arrays) : option string :=
  option_map col_name (NodeNameArray this).
Definition confidence_fixed (input : vtkTree) : option string :=
  match GetAbstractArray (VertexData input) "confidence" with
  | Some _ => Some "confidence"
  | None => None
  end.
Definition color_fixed (input : vtkTree) : option string :=
  match GetAbstractArray (VertexData input) "color" with
  | Some c => match col_uchar c with Some _ => Some "color" | None => None end
  | None => None
  end.

Definition opt_list (o : option string) : list string :=
  match o with Some n => [n] | None => [] end.

(** The names the clade-level fixed writers insert. *)
Definition clade_fixed_names (this : arrays) (input : vtkTree) : list string :=
  opt_list (edge_weight_fixed this) ++ opt_list (node_name_fixed this) ++
  opt_list (confidence_fixed input) ++ opt_list (color_fixed input).

(** The names the tree-level writers insert, in order. *)
Definition tree_element_name (input : vtkTree) (elementName : string) : list string :=
  match GetAbstractArray (VertexData input) ("phylogeny." ++ elementName) with
  | Some _ => ["phylogeny." ++ elementName]
  | None => []
  end.

Definition tree_property_names (cols : list column) : list string :=
  map col_name (filter (fun c => String.prefix "phylogeny.property." (col_name c)) cols).

(** An element transformation that leaves the [clade] structure alone. *)
Definition same_clades (el e : elem) : Prop :=
  elem_name e = elem_name el /\ clades e = clades el /\ count_clades e = count_clades el.

(** What a completed clade write guarantees, [F] being the names the
    clade-level fixed writers insert: the clade mirrors the subtree, the
    ledger only grows and ends up holding exactly its old names and [F],
    and every generic property written belongs to a vertex and comes from
    an array whose name is not in the final ledger. *)
Definition clade_written (F : list string) (t : vtree) (st : lstate) (e : elem)
  (st' : lstate) : Prop :=
  elem_name e = "clade" /\ Shape (clades e) = tree_shape t /\
  count_clades e = tree_size t /\
  (exists l, ls_blacklist st' = (ls_blacklist st ++ l)%list) /\
  (forall s, In s (ls_blacklist st') <-> In s (ls_blacklist st) \/ In s F) /\
  (exists E, ls_emitted st' = (ls_emitted st ++ E)%list /\
     forall x, In x E -> 0 <= fst x /\ ~ In (snd x) (ls_blacklist st')).

(** The same write from a ledger with the same names up to [F] builds the
    same element and ends with a ledger of the same names. *)
Definition clade_rel (F : list string) (f : vtree -> M elem) (t : vtree) (st : lstate)
  (e : elem) (st' : lstate) : Prop :=
  forall st2, (forall s, In s (ls_blacklist st) \/ In s F <-> In s (ls_blacklist st2) \/ In s F) ->
  exists st2', f t st2 = Some (e, st2') /\
    forall s, In s (ls_blacklist st') <-> In s (ls_blacklist st2').

(** The names inserted by the tree-level writers of [BuildPhylogeny]. *)
Definition tree_level_names (input : vtkTree) : list string :=
  (tree_element_name input "name" ++ tree_element_name input "description" ++
   tree_element_name input "confidence" ++ tree_property_names (VertexData input))%list.

(** [el] with the elements [xs] appended to its nested elements. *)
Definition appended (el : elem) (xs : list elem) : elem :=
  match el with Elem n a d ns => Elem n a d (ns ++ xs)%list end.

Definition opt_tag (b : bool) (s : string) : list string := if b then [s] else [].

(** The tree-level element [elementName] is written when the vertex array
    [phylogeny.<elementName>] exists. *)
Definition tree_element_tag (input : vtkTree) (elementName : string) : list string :=
  match GetAbstractArray (VertexData input) ("phylogeny." ++ elementName) with
  | Some _ => [elementName]
  | None => []
  end.

Definition tree_element_tags (input : vtkTree) : list string :=
  (tree_element_tag input "name" ++ tree_element_tag input "description" ++
   tree_element_tag input "confidence")%list.

(** The vertices of a tree in depth-first pre-order. *)
Fixpoint preorder (t : vtree) : list Z :=
  match t with VNode v kids => v :: flat_map preorder kids end.

(** The vertex arrays a clade writes as generic properties when the ledger
    holds the names [B]: those that are neither the node name nor the edge
    weight array and whose name is not in [B], in array order. *)
Definition property_arrays (this : arrays) (B : list string) (cols : list column) : list column :=
  filter (fun a => negb (same_array a (NodeNameArray this) || same_array a (EdgeWeightArray this)) &&
                   negb (existsb (String.eqb (col_name a)) B)) cols.

(** [b'] extends [b] by distinct names none of which was in [b]. *)
Definition fresh_extension (b b' : list string) : Prop :=
  exists l, b' = (b ++ l)%list /\ NoDup l /\ forall x, In x l -> ~ In x b.

(** The generic properties a clade of vertex [v] records when the ledger
    holds the names [B]. *)
Definition clade_emissions (this : arrays) (input : vtkTree) (B : list string) (v : Z)
  : list (Z * string) :=
  map (fun a => (v, col_name a)) (property_arrays this B (VertexData input)).

(** The arrays [WriteData] looks up for the writer's configured names. *)
Definition write_arrays (w : writer) (t : vtkTree) : arrays :=
  mkArrays (GetAbstractArray (EdgeData t) (EdgeWeightArrayName w))
           (GetAbstractArray (VertexData t) (NodeNameArrayName w)).

(** The component of the metadata accumulator (authority, appliesTo, unit)
    that the key [k] sets. *)
Definition info_field (k : string) (acc : string * string * string) : string :=
  let '(au, ap, un) := acc in
  if String.eqb k "authority" then au else if String.eqb k "applies_to" then ap else un.

Definition scan_keys : list string := ["authority"; "applies_to"; "unit"].

(** Lines 166-191 of [WriteCladeElement]: a vertex's own clade content,
    written before its children (branch length, name, confidence, color,
    then the generic properties). *)
Definition clade_head (this : arrays) (input : vtkTree) (vertex : Z) : M elem :=
  let cladeElement := NewElement "clade" in
  do e1 <- WriteBranchLengthAttribute this input vertex cladeElement ;;
  do e2 <- WriteNameElement this vertex e1 ;;
  do e3 <- WriteConfidenceElement input vertex e2 ;;
  do e4 <- WriteColorElement input vertex e3 ;;
  clade_properties_loop this vertex (VertexData input) e4.

(** Depth-first pre-order construction of the clades of a subtree, from
    state [st] to state [st']: the clade of node [v] is [v]'s own content,
    which holds no clade, written first, followed by the clades of [v]'s
    children, each one built in turn in the order the tree reports them. *)
Inductive clade_run (this : arrays) (input : vtkTree)
  : vtree -> lstate -> elem -> lstate -> Prop :=
| clade_run_node v kids st pre st1 cs st' :
    clade_head this input v st = Some (pre, st1) -> clades pre = [] ->
    children_run this input kids st1 cs st' ->
    clade_run this input (VNode v kids) st (appended pre cs) st'
with children_run (this : arrays) (input : vtkTree)
  : list vtree -> lstate -> list elem -> lstate -> Prop :=
| children_run_nil st : children_run this input [] st [] st
| children_run_cons k ks st c st1 cs st' :
    clade_run this input k st c st1 -> children_run this input ks st1 cs st' ->
    children_run this input (k :: ks) st (c :: cs) st'.

(** ** Sample inputs *)

Definition str_value (s : string) : variant := mkVariant "string" s s.
Definition double_value (s : string) : variant := mkVariant "double" s s.

Definition no_parent (_ : Z) : Z := -1.
Definition no_edge (_ _ : Z) : Z := -1.

(** The three-node tree of the spec: root 0 with children 1 and 2, edge 0
    from 0 to 1 (weight 1.5) and edge 1 from 0 to 2 (weight 2.25). *)
Definition weight_col : column :=
  mkColumn 1 "weight" [] [double_value "1.5"; double_value "2.25"] None.
Definition node_name_col : column :=
  mkColumn 2 "node name" [] [str_value "root"; str_value "leafA"; str_value "leafB"] None.
Definition habitat_col : column :=
  mkColumn 3 "property.habitat" [] [str_value ""; str_value ""; str_value "forest"] None.
Definition confidence_col : column :=
  mkColumn 4 "confidence" [("type", IStr "bootstrap")]
    [str_value "0.9"; str_value "0.8"; str_value "0.7"] None.
Definition node_weight_col : column :=
  mkColumn 5 "weight" [] [str_value "a"; str_value "b"; str_value "c"] None.
Definition tree3_parent (v : Z) : Z := if v =? 0 then -1 else 0.
Definition tree3_edge (p c : Z) : Z :=
  if (p =? 0) && (c =? 1) then 0 else if (p =? 0) && (c =? 2) then 1 else -1.
Definition tree3 : vtkTree :=
  mkTree [node_name_col; habitat_col; confidence_col; node_weight_col] [weight_col]
    (VNode 0 [VNode 1 []; VNode 2 []]) tree3_parent tree3_edge.
Definition tree3_arrays : arrays := mkArrays (Some weight_col) (Some node_name_col).

(** A one-node tree with no arrays. *)
Definition tree1 : vtkTree := mkTree [] [] (VNode 0 []) no_parent no_edge.

(** A stream whose first flush succeeds and whose second one fails. *)
Definition end_failing_stream : ostream := mkOstream "" false [false; true] 28.
Definition good_stream : ostream := mkOstream "" false [] 0.

Definition infix_property_col : column :=
  mkColumn 10 "a.property.b" [] [str_value "v"] None.
Definition authority_col : column :=
  mkColumn 11 "property.habitat" [("authority", IStr "NCBI")] [str_value "forest"] None.
Definition non_string_key_col : column :=
  mkColumn 12 "mass" [("unit", IStr "kg"); ("checksum", INonStr)] [str_value "1"] None.

(** "color" as a one-component unsigned char array, and as a four-component
    one, on a one-node tree. *)
Definition color1_col : column := mkColumn 20 "color" [] [str_value "7"] (Some (1%nat, [7])).
Definition color4_col : column :=
  mkColumn 21 "color" [] [str_value "1"] (Some (4%nat, [1; 2; 3; 4])).
Definition color1_tree : vtkTree := mkTree [color1_col] [] (VNode 0 []) no_parent no_edge.
Definition color4_tree : vtkTree := mkTree [color4_col] [] (VNode 0 []) no_parent no_edge.

(** A one-node tree whose only array is a vertex array named "weight". *)
Definition weight_tree : vtkTree :=
  mkTree [node_weight_col] [] (VNode 0 []) no_parent no_edge.

(** A one-node tree carrying a tree-level name. *)
Definition phylogeny_name_col : column :=
  mkColumn 40 "phylogeny.name" [] [str_value "primates"] None.
Definition named_tree : vtkTree :=
  mkTree [phylogeny_name_col] [] (VNode 0 []) no_parent no_edge.

(** A one-node tree whose confidence value is empty. *)
Definition empty_confidence_col : column :=
  mkColumn 41 "confidence" [] [str_value ""] None.
Definition empty_confidence_tree : vtkTree :=
  mkTree [empty_confidence_col] [] (VNode 0 []) no_parent no_edge.

(** A tree-level property column and a "color" array of doubles. *)
Definition tree_property_col : column :=
  mkColumn 30 "phylogeny.property.size" [] [str_value "12"] None.
Definition double_color_col : column :=
  mkColumn 31 "color" [] [mkVariant "double" "0.5" "0.5"] None.
Definition category_tree : vtkTree :=
  mkTree [tree_property_col; double_color_col] [] (VNode 0 []) no_parent no_edge.

Open Scope list_scope.

(** ** Proof tools *)

Lemma bind_Some {A B} (m : M A) (k : A -> M B) st b st'' :
  bind m k st = Some (b, st'') <->
  exists a st', m st = Some (a, st') /\ k a st' = Some (b, st'').
Proof.
  unfold bind; split.
  - destruct (m st) as [[a st']|]; [eauto | discriminate].
  - intros (a & st' & H1 & H2); now rewrite H1.
Qed.

Ltac inv_M :=
  repeat match goal with
  | H : bind _ _ _ = Some _ |- _ =>
      apply bind_Some in H; destruct H as (? & ? & ? & ?)
  | H : ret _ _ = Some _ |- _ => unfold ret in H; injection H; clear H; intros; subst
  | H : lift ?o _ = Some _ |- _ =>
      unfold lift in H; destruct o eqn:?; [injection H; clear H; intros; subst | discriminate]
  | H : get_blacklist _ = Some _ |- _ =>
      unfold get_blacklist in H; injection H; clear H; intros; subst
  | H : IgnoreArray _ _ = Some _ |- _ =>
      unfold IgnoreArray in H; injection H; clear H; intros; subst
  | H : record_emitted _ _ _ = Some _ |- _ =>
      unfold record_emitted in H; injection H; clear H; intros; subst
  | H : ignore_once _ _ = Some _ |- _ => unfold ignore_once in H
  | H : (match ?x with _ => _ end) _ = Some _ |- _ => destruct x eqn:?
  | H : (let '(_, _) := ?x in _) _ = Some _ |- _ => destruct x eqn:?
  end.

(** Unfolds the monad's primitives. *)
Ltac run_M :=
  unfold guard_add, ignore_once, bind, get_blacklist, ret, IgnoreArray, lift,
    record_emitted in *;
  simpl in *.

(** Case analysis on every test left, then clean-up of the equations. *)
Ltac crush_M :=
  repeat (first
    [ progress subst
    | progress (simpl in * )
    | match goal with
      | H : Some _ = Some _ |- _ => injection H; clear H; intros
      | H : None = Some _ |- _ => discriminate H
      | H : Some _ = None |- _ => discriminate H
      | H : (_, _) = (_, _) |- _ => injection H; clear H; intros
      | H : context [match ?x with _ => _ end] |- _ => destruct x eqn:?
      | |- context [match ?x with _ => _ end] => destruct x eqn:?
      end ]).

Ltac close_frame st2 :=
  try congruence; destruct st2; simpl; rewrite ?app_nil_r; reflexivity.

(** Evaluates the left-hand side of an equation whose right-hand side may
    still hold existential variables. *)
Ltac eval_lhs :=
  match goal with |- ?l = _ => let v := eval vm_compute in l in change l with v end;
  reflexivity.

(** ** Datatype inference *)

(** C4: [datatype_of] is total: unsigned char gives [xsd:unsignedByte], int
    gives [xsd:integer], bit gives [xsd:boolean], short, long, float and
    double give [xsd:] followed by the name, the unsigned kinds their
    [xsd:unsigned*] token, [__int64] gives [xsd:long], and every other type
    name (string included) gives [xsd:string]. *)
Theorem datatype_of_total_mapping :
  datatype_of "unsigned char" = "xsd:unsignedByte" /\
  datatype_of "int" = "xsd:integer" /\
  datatype_of "bit" = "xsd:boolean" /\
  datatype_of "short" = "xsd:short" /\
  datatype_of "long" = "xsd:long" /\
  datatype_of "float" = "xsd:float" /\
  datatype_of "double" = "xsd:double" /\
  datatype_of "unsigned short" = "xsd:unsignedShort" /\
  datatype_of "unsigned int" = "xsd:unsignedInt" /\
  datatype_of "unsigned long" = "xsd:unsignedLong" /\
  datatype_of "__int64" = "xsd:long" /\
  datatype_of "string" = "xsd:string" /\
  (forall s, ~ In s recognized_type_names -> datatype_of s = "xsd:string") /\
  (forall s, exists t, datatype_of s = t /\ String.prefix "xsd:" t = true).
Proof.
  assert (Hfb : forall s, ~ In s recognized_type_names -> datatype_of s = "xsd:string").
  { intros s H. unfold datatype_of.
    repeat match goal with
    | |- context [String.eqb s ?x] =>
        let E := fresh "E" in
        destruct (String.eqb s x) eqn:E;
        [apply String.eqb_eq in E; subst; exfalso; apply H; simpl; tauto |]
    end.
    reflexivity. }
  repeat split; try reflexivity; auto.
  intros s. exists (datatype_of s). split; [reflexivity|].
  destruct (in_dec String.string_dec s recognized_type_names) as [Hin|Hn].
  - simpl in Hin.
    repeat (destruct Hin as [<-|Hin]; [reflexivity|]); contradiction.
  - now rewrite Hfb.
Qed.

(** ** The [ref] attribute *)

Lemma substring_0_full (s : string) (m : nat) :
  (String.length s <= m)%nat -> substring 0 m s = s.
Proof.
  revert m; induction s as [|a s IH]; intros m Hm.
  - destruct m; reflexivity.
  - destruct m as [|m]; simpl in Hm; [lia|].
    simpl. rewrite IH; [reflexivity | lia].
Qed.

Lemma substring_as_drop (s : string) (n m : nat) :
  (String.length s - n <= m)%nat -> substring n m s = drop_chars n s.
Proof.
  revert n m; induction s as [|a s IH]; intros n m Hm.
  - destruct n, m; reflexivity.
  - destruct n as [|n].
    + apply substring_0_full. simpl in *. lia.
    + simpl. apply IH. simpl in Hm. lia.
Qed.

Lemma index_property_after (s : string) :
  match index 0 "property." s with
  | None => after_property s = None
  | Some i => after_property s = Some (drop_chars (i + 9) s)
  end.
Proof.
  induction s as [|a s IH].
  - reflexivity.
  - assert (Hi : index 0 "property." (String a s) =
              if String.prefix "property." (String a s) then Some 0%nat
              else match index 0 "property." s with
                   | Some n => Some (S n) | None => None end) by reflexivity.
    assert (Ha : after_property (String a s) =
              if String.prefix "property." (String a s)
              then Some (drop_chars 9 (String a s)) else after_property s)
      by reflexivity.
    rewrite Hi, Ha.
    destruct (String.prefix "property." (String a s)).
    + reflexivity.
    + destruct (index 0 "property." s) as [i|]; exact IH.
Qed.

Lemma property_name_after (s : string) :
  property_name s = match after_property s with Some r => r | None => s end.
Proof.
  unfold property_name.
  pose proof (index_property_after s) as H.
  destruct (index 0 "property." s) as [i|].
  - rewrite H. apply substring_as_drop. simpl (String.length "property."). lia.
  - rewrite H. apply substring_0_full. simpl. lia.
Qed.

Lemma meta_value_in (k : string) (info : list (string * infoval)) (v : string) :
  meta_value k info = Some v -> In k (map fst info).
Proof.
  induction info as [|[k' iv] r IH]; simpl; [discriminate|].
  destruct iv as [s|].
  - destruct (String.eqb k' k) eqn:E.
    + apply String.eqb_eq in E. subst. auto.
    + intros H. right. auto.
  - intros H. right. auto.
Qed.

Lemma scan_authority (info : list (string * infoval)) acc res :
  NoDup (map fst info) ->
  property_info_scan info acc = Some res ->
  fst (fst res) =
    match meta_value "authority" info with Some a => a | None => fst (fst acc) end.
Proof.
  revert acc; induction info as [|[k iv] r IH]; intros acc Hnd H.
  - simpl in H. injection H as <-. reflexivity.
  - simpl in Hnd. inversion Hnd as [|? ? Hnin Hnd']; subst.
    destruct iv as [s|]; simpl in H; [|discriminate].
    destruct acc as [[au ap] un].
    simpl meta_value.
    destruct (String.eqb k "authority") eqn:Ea.
    + apply String.eqb_eq in Ea; subst k.
      rewrite (IH _ Hnd' H).
      destruct (meta_value "authority" r) eqn:Em; [|reflexivity].
      exfalso. apply Hnin. eapply meta_value_in; eauto.
    + rewrite (IH _ Hnd' H).
      destruct (meta_value "authority" r); [reflexivity|].
      destruct (String.eqb k "applies_to"); [reflexivity|].
      destruct (String.eqb k "unit"); reflexivity.
Qed.

(** C5 (amended): the [ref] of every property element is
    [authority:localName], with [authority] the metadata value of the key
    [authority] ("VTK" when absent or empty) and [localName] the array name
    after the first occurrence of [property.] anywhere in it (the whole
    name when it has none). *)
Theorem property_ref_amended array vertex element st e' st' :
  NoDup (map fst (col_info array)) ->
  WritePropertyElement array vertex element st = Some (e', st') ->
  exists pe, e' = AddNestedElement element pe /\ elem_name pe = "property" /\
             attr_lookup "ref" (elem_attrs pe) = Some (expected_ref array).
Proof.
  intros Hnd H. unfold WritePropertyElement in H.
  apply bind_Some in H as (acc & st1 & Hs & H).
  unfold lift in Hs.
  destruct (property_info_scan (col_info array) ("", "", "")) as [[[au ap] un]|] eqn:Hscan;
    [|discriminate].
  injection Hs as <- <-.
  pose proof (scan_authority _ _ _ Hnd Hscan) as Ha. simpl in Ha.
  cbv beta iota in H. inv_M.
  all: eexists; split; [reflexivity|].
  all: unfold expected_ref; rewrite <- property_name_after.
  all: destruct (String.eqb ap "") eqn:?; destruct (String.eqb un "") eqn:?;
       simpl; split; auto;
       destruct (meta_value "authority" (col_info array)); reflexivity.
Qed.

(** C5 (counterexample): an array named [a.property.b], which contains
    [property.] only after its first character, gets [ref = VTK:b], not
    [VTK:a.property.b]. *)
Lemma property_ref_infix_counterexample :
  exists e' st',
    WritePropertyElement infix_property_col 0 (NewElement "clade") (mkLstate [] []) =
      Some (e', st') /\
    exists pe, e' = AddNestedElement (NewElement "clade") pe /\
               attr_lookup "ref" (elem_attrs pe) = Some "VTK:b" /\
               "VTK:b" <> ("VTK:" ++ col_name infix_property_col)%string.
Proof.
  do 2 eexists. split; [eval_lhs|].
  eexists. split; [reflexivity|]. split; [reflexivity|]. discriminate.
Qed.

Lemma property_ref_amended_witness :
  NoDup (map fst (col_info authority_col)) /\
  exists e' st',
    WritePropertyElement authority_col 0 (NewElement "clade") (mkLstate [] []) =
      Some (e', st') /\
    exists pe, e' = AddNestedElement (NewElement "clade") pe /\ elem_name pe = "property" /\
               attr_lookup "ref" (elem_attrs pe) = Some (expected_ref authority_col).
Proof.
  assert (Hnd : NoDup (map fst (col_info authority_col))).
  { simpl. constructor; [simpl; tauto | constructor]. }
  split; [exact Hnd|].
  do 2 eexists. split; [eval_lhs|].
  exact (property_ref_amended authority_col 0 (NewElement "clade") (mkLstate [] []) _ _
           Hnd eq_refl).
Defined.

(** ** The metadata scan *)

(** C10: the metadata loop of [WritePropertyElement] fails (a null
    dereference) as soon as the array carries a key that is not a string
    key, completes when every key is a string key, and [GetArrayAttribute]
    is total and returns "" when no string key of the requested name
    exists. *)
Theorem property_scan_requires_string_keys (array : column) :
  ((exists k, In (k, INonStr) (col_info array)) ->
   forall vertex element st, WritePropertyElement array vertex element st = None) /\
  ((forall k iv, In (k, iv) (col_info array) -> iv <> INonStr) ->
   forall acc, property_info_scan (col_info array) acc <> None) /\
  (forall a, (forall s, ~ In (a, IStr s) (col_info array)) ->
   GetArrayAttribute array a = "").
Proof.
  split; [|split].
  - intros [k Hk] vertex element st.
    unfold WritePropertyElement, bind, lift.
    assert (Hn : forall info acc, In (k, INonStr) info -> property_info_scan info acc = None).
    { induction info as [|[k' iv] r IH]; intros acc Hin; [destruct Hin|].
      destruct iv as [s|]; [|reflexivity].
      destruct Hin as [Heq|Hin]; [discriminate|].
      simpl. destruct acc as [[au ap] un]. apply IH. exact Hin. }
    rewrite (Hn _ _ Hk). reflexivity.
  - intros Hall.
    induction (col_info array) as [|[k iv] r IH]; intros acc; [discriminate|].
    destruct iv as [s|].
    + simpl. destruct acc as [[au ap] un].
      apply IH. intros k' iv' Hin. apply (Hall k'). right. exact Hin.
    + exfalso. apply (Hall k INonStr); [left; reflexivity | reflexivity].
  - intros a Hno. unfold GetArrayAttribute.
    induction (col_info array) as [|[k iv] r IH]; [reflexivity|].
    simpl. destruct (String.eqb k a) eqn:E.
    + apply String.eqb_eq in E; subst k. destruct iv as [s|].
      * exfalso. apply (Hno s). left. reflexivity.
      * apply IH. intros s Hs. apply (Hno s). right. exact Hs.
    + apply IH. intros s Hs. apply (Hno s). right. exact Hs.
Qed.

Lemma property_scan_requires_string_keys_witness :
  WritePropertyElement non_string_key_col 0 (NewElement "clade") (mkLstate [] []) = None /\
  GetArrayAttribute non_string_key_col "checksum" = "".
Proof.
  pose proof (property_scan_requires_string_keys non_string_key_col) as [H1 [_ H3]].
  split.
  - apply H1. exists "checksum". simpl. tauto.
  - apply H3. intros s [Hs|[Hs|[]]]; discriminate.
Defined.

(** ** Stream failure at the end of the document *)

(** C3 (code bug): when the closing flush fails, [EndFile] records the
    system error code but [WriteData] ignores its result and returns 1
    (success), where a failing [StartFile] makes it return 0. *)
Theorem WriteData_end_flush_failure_returns_success :
  exists w',
    WriteData (vtkPhyloXMLTreeWriter_new end_failing_stream) tree1 = Some (1, w') /\
    os_failed (Stream w') = true /\ ErrorCode w' = 28.
Proof.
  eexists. split; [eval_lhs|]. split; reflexivity.
Qed.

(** ** The color element *)

(** C7 (code bug): a "color" array that is an unsigned char array with one
    component is not treated as absent: the green and blue reads go past
    its storage (undefined), and with four components a color element is
    written from the first three. *)
Theorem color_component_count_unchecked :
  WriteColorElement color1_tree 0 (NewElement "clade") (mkLstate [] []) = None /\
  GetComponent 1 [7] 0 1 = None /\
  exists e st,
    WriteColorElement color4_tree 0 (NewElement "clade") (mkLstate [] []) = Some (e, st) /\
    map elem_name (elem_nested e) = ["color"].
Proof.
  split; [reflexivity|]. split; [reflexivity|].
  do 2 eexists. split; [eval_lhs | reflexivity].
Qed.

(** ** Ledger behaviour of the writer's methods *)

Lemma LookupValue_range (l : list string) (s : string) : -1 <= LookupValue l s.
Proof.
  induction l as [|x xs IH]; simpl; [lia|].
  destruct (String.eqb x s); [lia|].
  destruct (LookupValue xs s =? -1); lia.
Qed.

Lemma LookupValue_not_found (l : list string) (s : string) :
  LookupValue l s = -1 <-> ~ In s l.
Proof.
  induction l as [|x xs IH]; simpl.
  - tauto.
  - destruct (String.eqb x s) eqn:E.
    + apply String.eqb_eq in E. split; [discriminate | intros H; exfalso; auto].
    + apply String.eqb_neq in E.
      pose proof (LookupValue_range xs s) as Hr.
      destruct (LookupValue xs s =? -1) eqn:E2.
      * apply Z.eqb_eq in E2. split; [intros _ [H|H]; [auto | apply IH in E2; auto] | reflexivity].
      * apply Z.eqb_neq in E2.
        split; [intros H; exfalso; lia|].
        intros H. exfalso. apply E2. apply IH. intros Hin. apply H. right. exact Hin.
Qed.

Lemma LookupValue_eqb (l : list string) (s : string) :
  (LookupValue l s =? -1) = negb (existsb (String.eqb s) l).
Proof.
  destruct (LookupValue l s =? -1) eqn:E; symmetry.
  - apply Z.eqb_eq, LookupValue_not_found in E.
    apply negb_true_iff. apply Bool.not_true_iff_false. intros Hx.
    apply existsb_exists in Hx as [x [Hin Hx]]. apply String.eqb_eq in Hx. subst. auto.
  - apply Z.eqb_neq in E. apply negb_false_iff. apply existsb_exists.
    destruct (in_dec String.string_dec s l) as [Hin|Hn].
    + exists s. split; [exact Hin | apply String.eqb_refl].
    + exfalso. apply E. apply LookupValue_not_found. exact Hn.
Qed.

Lemma AddNested_same_clades (el x : elem) :
  String.eqb (elem_name x) "clade" = false -> count_clades x = 0%nat ->
  same_clades el (AddNestedElement el x).
Proof.
  intros Hn Hc. destruct el as [n a d ns]. unfold same_clades; simpl.
  split; [reflexivity|]. split.
  - rewrite flat_map_app. simpl. rewrite Hn. simpl. apply app_nil_r.
  - rewrite fold_right_app. simpl. rewrite Hc. reflexivity.
Qed.

Lemma SetAttribute_same_clades (k v : string) (el : elem) :
  same_clades el (SetAttribute k v el).
Proof. destruct el; repeat split. Qed.

Lemma same_clades_refl (el : elem) : same_clades el el.
Proof. repeat split. Qed.

Lemma same_clades_trans (a b c : elem) :
  same_clades a b -> same_clades b c -> same_clades a c.
Proof. unfold same_clades. intros (? & ? & ?) (? & ? & ?). repeat split; congruence. Qed.

Ltac close_clades :=
  repeat first
    [ apply same_clades_refl
    | apply SetAttribute_same_clades
    | (apply AddNested_same_clades; reflexivity) ].

(** The clade-level fixed writers do not read the ledger except for the
    guard of their insertion: their element is the same from any state, and
    the state changes by [guard_add] only. *)
Lemma WriteBranchLengthAttribute_spec this input v el e st st' :
  WriteBranchLengthAttribute this input v el st = Some (e, st') ->
  same_clades el e /\
  forall st2, WriteBranchLengthAttribute this input v el st2 =
    Some (e, mkLstate (ls_blacklist st2 ++ guard_add (ls_blacklist st2) (edge_weight_fixed this))
                      (ls_emitted st2)).
Proof.
  intros H. split.
  - unfold WriteBranchLengthAttribute in H. run_M. crush_M; close_clades.
  - intros st2. unfold WriteBranchLengthAttribute, edge_weight_fixed in *. run_M. crush_M;
      close_frame st2.
Qed.

Lemma WriteNameElement_spec this v el e st st' :
  WriteNameElement this v el st = Some (e, st') ->
  same_clades el e /\
  forall st2, WriteNameElement this v el st2 =
    Some (e, mkLstate (ls_blacklist st2 ++ guard_add (ls_blacklist st2) (node_name_fixed this))
                      (ls_emitted st2)).
Proof.
  intros H. split.
  - unfold WriteNameElement in H. run_M. crush_M; close_clades.
  - intros st2. unfold WriteNameElement, node_name_fixed in *. run_M. crush_M;
      close_frame st2.
Qed.

Lemma WriteConfidenceElement_spec input v el e st st' :
  WriteConfidenceElement input v el st = Some (e, st') ->
  same_clades el e /\
  forall st2, WriteConfidenceElement input v el st2 =
    Some (e, mkLstate (ls_blacklist st2 ++ guard_add (ls_blacklist st2) (confidence_fixed input))
                      (ls_emitted st2)).
Proof.
  intros H. split.
  - unfold WriteConfidenceElement in H. run_M. crush_M; close_clades.
  - intros st2. unfold WriteConfidenceElement, confidence_fixed in *. run_M. crush_M;
      close_frame st2.
Qed.

Lemma WriteColorElement_spec input v el e st st' :
  WriteColorElement input v el st = Some (e, st') ->
  same_clades el e /\
  forall st2, WriteColorElement input v el st2 =
    Some (e, mkLstate (ls_blacklist st2 ++ guard_add (ls_blacklist st2) (color_fixed input))
                      (ls_emitted st2)).
Proof.
  intros H. split.
  - unfold WriteColorElement in H. run_M. crush_M; close_clades.
  - intros st2. unfold WriteColorElement, color_fixed in *. run_M. crush_M;
      close_frame st2.
Qed.

Lemma WritePropertyElement_spec a v el e st st' :
  WritePropertyElement a v el st = Some (e, st') ->
  same_clades el e /\
  forall st2, WritePropertyElement a v el st2 =
    Some (e, mkLstate (ls_blacklist st2 ++ (if v =? -1 then [col_name a] else []))
                      (ls_emitted st2 ++ [(v, col_name a)])).
Proof.
  intros H. split.
  - unfold WritePropertyElement in H. run_M. crush_M; close_clades.
  - intros st2. unfold WritePropertyElement in *. run_M. crush_M;
      try congruence; destruct st2; simpl; rewrite ?app_nil_r; reflexivity.
Qed.

Lemma WriteTreeLevelElement_spec input root en an e st st' :
  WriteTreeLevelElement input root en an st = Some (e, st') ->
  forall st2, WriteTreeLevelElement input root en an st2 =
    Some (e, mkLstate (ls_blacklist st2 ++ tree_element_name input en) (ls_emitted st2)).
Proof.
  intros H st2. unfold WriteTreeLevelElement, tree_element_name in *. run_M. crush_M;
    close_frame st2.
Qed.

Lemma tree_level_properties_loop_spec cols el e st st' :
  tree_level_properties_loop cols el st = Some (e, st') ->
  forall st2, tree_level_properties_loop cols el st2 =
    Some (e, mkLstate (ls_blacklist st2 ++ tree_property_names cols)
                      (ls_emitted st2 ++ map (fun n => (-1, n)) (tree_property_names cols))).
Proof.
  revert el st; induction cols as [|c cs IH]; intros el st H st2.
  - simpl in *. unfold ret in *. injection H as <- <-.
    destruct st2; simpl; rewrite !app_nil_r; reflexivity.
  - simpl in H |- *. unfold tree_property_names in *. simpl.
    destruct (String.prefix "phylogeny.property." (col_name c)) eqn:Ep.
    + apply bind_Some in H as (el1 & st1 & H1 & H2).
      destruct (WritePropertyElement_spec _ _ _ _ _ _ H1) as [_ Hf].
      unfold bind. rewrite Hf. simpl.
      rewrite (IH _ _ H2). simpl. rewrite <- !app_assoc. reflexivity.
    + exact (IH _ _ H st2).
Qed.

Lemma WritePropertyElement_clade_level a v el e st st' :
  v <> -1 ->
  WritePropertyElement a v el st = Some (e, st') ->
  same_clades el e /\ st' = mkLstate (ls_blacklist st) (ls_emitted st ++ [(v, col_name a)]) /\
  forall st2, WritePropertyElement a v el st2 =
    Some (e, mkLstate (ls_blacklist st2) (ls_emitted st2 ++ [(v, col_name a)])).
Proof.
  intros Hv H. destruct (WritePropertyElement_spec _ _ _ _ _ _ H) as [Hc Hf].
  assert (Hv' : (v =? -1) = false) by (apply Z.eqb_neq; exact Hv).
  split; [exact Hc|]. split.
  - rewrite (Hf st) in H. rewrite Hv', app_nil_r in H. congruence.
  - intros st2. rewrite (Hf st2), Hv', app_nil_r. reflexivity.
Qed.

(** The generic-property loop of a clade: it never changes the ledger, each
    property it writes comes from an array whose name is not in the ledger,
    and its result depends on the ledger only through membership. *)
Lemma clade_properties_loop_spec this v cols el e st st' :
  v <> -1 ->
  clade_properties_loop this v cols el st = Some (e, st') ->
  same_clades el e /\ ls_blacklist st' = ls_blacklist st /\
  (exists E, ls_emitted st' = (ls_emitted st ++ E)%list /\
             forall x, In x E -> fst x = v /\ ~ In (snd x) (ls_blacklist st)) /\
  (forall st2, (forall s, In s (ls_blacklist st) <-> In s (ls_blacklist st2)) ->
   exists em2, clade_properties_loop this v cols el st2 = Some (e, mkLstate (ls_blacklist st2) em2)).
Proof.
  intros Hv. revert el st; induction cols as [|a rest IH]; intros el st H.
  - simpl in H. unfold ret in H. injection H as <- <-.
    split; [apply same_clades_refl|]. split; [reflexivity|]. split.
    + exists []. rewrite app_nil_r. split; [reflexivity | intros x []].
    + intros st2 _. exists (ls_emitted st2). simpl. unfold ret. destruct st2; reflexivity.
  - simpl in H |- *.
    destruct (same_array a (NodeNameArray this) || same_array a (EdgeWeightArray this)).
    + exact (IH _ _ H).
    + apply bind_Some in H as (bl & st0 & Hg & H).
      unfold get_blacklist in Hg. injection Hg as <- <-.
      destruct (LookupValue (ls_blacklist st) (col_name a) =? -1) eqn:El; simpl in H.
      * apply bind_Some in H as (el1 & st1 & H1 & H2).
        destruct (WritePropertyElement_clade_level _ _ _ _ _ _ Hv H1) as (Hc1 & -> & Hf).
        destruct (IH _ _ H2) as (Hc2 & Hbl & (E & HE & HEx) & Hrel).
        simpl in *.
        split; [eapply same_clades_trans; eauto|]. split; [exact Hbl|]. split.
        -- exists ((v, col_name a) :: E). rewrite HE, <- app_assoc. split; [reflexivity|].
           intros x [<-|Hx]; [|apply HEx; exact Hx].
           split; [reflexivity|]. simpl. apply LookupValue_not_found. apply Z.eqb_eq. exact El.
        -- intros st2 Hiff. unfold bind, get_blacklist.
           assert (El2 : (LookupValue (ls_blacklist st2) (col_name a) =? -1) = true).
           { rewrite LookupValue_eqb in El |- *.
             destruct (existsb (String.eqb (col_name a)) (ls_blacklist st)) eqn:X1;
               [discriminate|].
             destruct (existsb (String.eqb (col_name a)) (ls_blacklist st2)) eqn:X2;
               [|reflexivity].
             exfalso. apply existsb_exists in X2 as [y [Hy Hy']].
             apply String.eqb_eq in Hy'. subst y. apply Hiff in Hy.
             assert (Hx : existsb (String.eqb (col_name a)) (ls_blacklist st) = true).
             { apply existsb_exists. exists (col_name a). split; [exact Hy | apply String.eqb_refl]. }
             congruence. }
           rewrite El2. simpl. rewrite Hf.
           destruct (Hrel (mkLstate (ls_blacklist st2) (ls_emitted st2 ++ [(v, col_name a)])))
             as [em2 Hem2]; [exact Hiff|].
           exists em2. exact Hem2.
      * destruct (IH _ _ H) as (Hc2 & Hbl & HE & Hrel).
        split; [exact Hc2|]. split; [exact Hbl|]. split; [exact HE|].
        intros st2 Hiff. unfold bind, get_blacklist.
        assert (El2 : (LookupValue (ls_blacklist st2) (col_name a) =? -1) = false).
        { apply Z.eqb_neq. intros Hn. apply LookupValue_not_found in Hn.
          apply Z.eqb_neq in El. apply El. apply LookupValue_not_found.
          intros Hin. apply Hn. apply Hiff. exact Hin. }
        rewrite El2. simpl. exact (Hrel st2 Hiff).
Qed.

(** ** The recursive clade writer *)

Lemma vtree_ind' (P : vtree -> Prop) :
  (forall v kids, Forall P kids -> P (VNode v kids)) -> forall t, P t.
Proof.
  intros Hn. fix IH 1. intros [v kids]. apply Hn.
  induction kids as [|k ks IHks]; constructor; [apply IH | exact IHks].
Qed.

Lemma bind_Some_l {A B} (m : M A) (k : A -> M B) st a st' :
  m st = Some (a, st') -> bind m k st = k a st'.
Proof. intros H. unfold bind. rewrite H. reflexivity. Qed.

Lemma guard_add_in (bl : list string) (nm : option string) (n : string) :
  nm = Some n -> In n (bl ++ guard_add bl nm).
Proof.
  intros ->. simpl. apply in_or_app.
  destruct (LookupValue bl n =? -1) eqn:E.
  - right. left. reflexivity.
  - left. destruct (in_dec String.string_dec n bl) as [Hin|Hn]; [exact Hin|].
    apply LookupValue_not_found in Hn. rewrite Hn in E. discriminate.
Qed.

Lemma guard_add_sub (bl : list string) (nm : option string) (s : string) :
  In s (guard_add bl nm) -> In s (opt_list nm).
Proof.
  destruct nm as [n|]; simpl; [|tauto].
  destruct (LookupValue bl n =? -1); simpl; tauto.
Qed.

Lemma AddNested_clade (e c : elem) :
  elem_name c = "clade" ->
  elem_name (AddNestedElement e c) = elem_name e /\
  clades (AddNestedElement e c) = (clades e ++ [Shape (clades c)])%list /\
  count_clades (AddNestedElement e c) = (count_clades e + count_clades c)%nat.
Proof.
  intros Hc. destruct e as [n a d ns]. simpl.
  split; [reflexivity|]. split.
  - rewrite flat_map_app. simpl. rewrite Hc. simpl. rewrite ?app_nil_r. reflexivity.
  - rewrite fold_right_app. simpl. rewrite Nat.add_0_r.
    assert (Hf : forall m, fold_right (fun c0 k => (count_clades c0 + k)%nat) m ns =
                           (fold_right (fun c0 k => (count_clades c0 + k)%nat) 0%nat ns + m)%nat).
    { induction ns as [|x xs IH]; intros m; simpl; [reflexivity|]. rewrite IH. lia. }
    rewrite Hf. lia.
Qed.

(** The four fixed writers of a clade, run in a row: from any state they
    write the same element, insert only fixed names, and leave every fixed
    name in the ledger. *)
Lemma fixed_writers_chain this input v e0 e1 e2 e3 e4 st st1 st2 st3 st4 :
  WriteBranchLengthAttribute this input v e0 st = Some (e1, st1) ->
  WriteNameElement this v e1 st1 = Some (e2, st2) ->
  WriteConfidenceElement input v e2 st2 = Some (e3, st3) ->
  WriteColorElement input v e3 st3 = Some (e4, st4) ->
  same_clades e0 e4 /\
  forall sa, exists sa1 sa2 sa3 sa4,
    WriteBranchLengthAttribute this input v e0 sa = Some (e1, sa1) /\
    WriteNameElement this v e1 sa1 = Some (e2, sa2) /\
    WriteConfidenceElement input v e2 sa2 = Some (e3, sa3) /\
    WriteColorElement input v e3 sa3 = Some (e4, sa4) /\
    ls_emitted sa4 = ls_emitted sa /\
    (exists l, ls_blacklist sa4 = (ls_blacklist sa ++ l)%list /\
               forall s, In s l -> In s (clade_fixed_names this input)) /\
    (forall s, In s (clade_fixed_names this input) -> In s (ls_blacklist sa4)).
Proof.
  intros H1 H2 H3 H4.
  destruct (WriteBranchLengthAttribute_spec _ _ _ _ _ _ _ H1) as [C1 F1].
  destruct (WriteNameElement_spec _ _ _ _ _ _ H2) as [C2 F2].
  destruct (WriteConfidenceElement_spec _ _ _ _ _ _ H3) as [C3 F3].
  destruct (WriteColorElement_spec _ _ _ _ _ _ H4) as [C4 F4].
  split.
  - eauto using same_clades_trans.
  - intros sa. do 4 eexists.
    split; [apply F1|]. split; [apply F2|]. split; [apply F3|]. split; [apply F4|].
    simpl. split; [reflexivity|].
    set (b0 := ls_blacklist sa).
    set (b1 := b0 ++ guard_add b0 (edge_weight_fixed this)).
    set (b2 := b1 ++ guard_add b1 (node_name_fixed this)).
    set (b3 := b2 ++ guard_add b2 (confidence_fixed input)).
    set (b4 := b3 ++ guard_add b3 (color_fixed input)).
    assert (Hsub : forall x y : list string, forall s, In s x -> In s (x ++ y))
      by (intros; apply in_or_app; left; assumption).
    split.
    + exists (guard_add b0 (edge_weight_fixed this) ++ guard_add b1 (node_name_fixed this) ++
              guard_add b2 (confidence_fixed input) ++ guard_add b3 (color_fixed input)).
      split; [unfold b4, b3, b2, b1; rewrite <- !app_assoc; reflexivity|].
      intros s Hs. unfold clade_fixed_names.
      repeat (apply in_app_or in Hs; destruct Hs as [Hs|Hs]);
        apply guard_add_sub in Hs; repeat (apply in_or_app; first [left; exact Hs | right]);
        exact Hs.
    + intros s Hs. unfold clade_fixed_names in Hs.
      repeat (apply in_app_or in Hs; destruct Hs as [Hs|Hs]).
      * destruct (edge_weight_fixed this) as [n|] eqn:En; [|destruct Hs].
        destruct Hs as [<-|[]]. apply Hsub, Hsub, Hsub. unfold b1. rewrite <- En.
        apply guard_add_in. exact En.
      * destruct (node_name_fixed this) as [n|] eqn:En; [|destruct Hs].
        destruct Hs as [<-|[]]. apply Hsub, Hsub. unfold b2. rewrite <- En.
        apply guard_add_in. exact En.
      * destruct (confidence_fixed input) as [n|] eqn:En; [|destruct Hs].
        destruct Hs as [<-|[]]. apply Hsub. unfold b3. rewrite <- En.
        apply guard_add_in. exact En.
      * destruct (color_fixed input) as [n|] eqn:En; [|destruct Hs].
        destruct Hs as [<-|[]]. unfold b4. rewrite <- En.
        apply guard_add_in. exact En.
Qed.

Lemma ids_nonneg_kids (kids : list vtree) :
  fold_right (fun k P => ids_nonneg k /\ P) True kids -> Forall ids_nonneg kids.
Proof.
  induction kids as [|k ks IH]; simpl; intros H; [constructor|].
  destruct H as [Hk Hks]. constructor; [exact Hk | apply IH; exact Hks].
Qed.

(** The loop over the children of a clade, once every fixed name is in the
    ledger: each child's clade is appended in order, and the ledger keeps
    the same names. *)
Lemma WriteChildrenClades_spec (F : list string) (f : vtree -> M elem) (ks : list vtree) :
  Forall (fun k => forall st e st', f k st = Some (e, st') ->
            clade_written F k st e st' /\ clade_rel F f k st e st') ks ->
  forall el st e st',
  (forall s, In s F -> In s (ls_blacklist st)) ->
  WriteChildrenClades f ks el st = Some (e, st') ->
  elem_name e = elem_name el /\ clades e = clades el ++ map tree_shape ks /\
  count_clades e = (count_clades el + fold_right (fun k n => tree_size k + n) 0 ks)%nat /\
  (exists l, ls_blacklist st' = ls_blacklist st ++ l) /\
  (forall s, In s (ls_blacklist st') <-> In s (ls_blacklist st)) /\
  (exists E, ls_emitted st' = ls_emitted st ++ E /\
     forall x, In x E -> 0 <= fst x /\ ~ In (snd x) (ls_blacklist st')) /\
  (forall st2, (forall s, In s F -> In s (ls_blacklist st2)) ->
     (forall s, In s (ls_blacklist st) <-> In s (ls_blacklist st2)) ->
     exists st2', WriteChildrenClades f ks el st2 = Some (e, st2') /\
       forall s, In s (ls_blacklist st') <-> In s (ls_blacklist st2')).
Proof.
  induction 1 as [|k ks Hk Hks IH]; intros el st e st' HF H.
  - simpl in H. unfold ret in H. injection H as <- <-. simpl.
    rewrite app_nil_r, Nat.add_0_r.
    split; [reflexivity|]. split; [reflexivity|]. split; [reflexivity|].
    split; [exists []; rewrite app_nil_r; reflexivity|]. split; [tauto|].
    split; [exists []; rewrite app_nil_r; split; [reflexivity | intros x []]|].
    intros st2 _ Hi. exists st2. split; [reflexivity | exact Hi].
  - simpl in H. apply bind_Some in H as (c & st1 & H1 & H2).
    destruct (Hk _ _ _ H1) as [(Cn & Cs & Cc & (l1 & Hl1) & Hi1 & (E1 & HE1 & HE1x)) Hrel1].
    destruct (AddNested_clade el c Cn) as (An & As & Ac).
    assert (HF1 : forall s, In s F -> In s (ls_blacklist st1)) by (intros s Hs; apply Hi1; right; exact Hs).
    destruct (IH _ _ _ _ HF1 H2) as (Rn & Rs & Rc & (l2 & Hl2) & Hi2 & (E2 & HE2 & HE2x) & Hrel2).
    split; [congruence|]. split.
    { rewrite Rs, As, Cs. simpl. rewrite <- app_assoc. reflexivity. }
    split; [rewrite Rc, Ac, Cc; simpl; lia|].
    split; [exists (l1 ++ l2); rewrite Hl2, Hl1, app_assoc; reflexivity|].
    split.
    { intros s. rewrite Hi2, Hi1. split; [intros [Hs|Hs]; [exact Hs | apply HF; exact Hs] | intros Hs; left; exact Hs]. }
    split.
    { exists (E1 ++ E2). rewrite HE2, HE1, app_assoc. split; [reflexivity|].
      intros x Hx. apply in_app_or in Hx as [Hx|Hx]; [|apply HE2x; exact Hx].
      destruct (HE1x x Hx) as [Hp Hn]. split; [exact Hp|]. rewrite Hi2. exact Hn. }
    intros st2 HF2 Hi.
    destruct (Hrel1 st2) as (st2a & Ha & Hia).
    { intros s. split; intros [Hs|Hs]; try (right; exact Hs); left; apply Hi; exact Hs. }
    destruct (Hrel2 st2a) as (st2' & Hb & Hib).
    { intros s Hs. apply Hia, HF1, Hs. }
    { intros s. symmetry. rewrite <- Hia. reflexivity. }
    exists st2'. split; [|exact Hib].
    simpl. rewrite (bind_Some_l _ _ _ _ _ Ha). exact Hb.
Qed.

(** The clade writer: the clade of a subtree mirrors it, the ledger gains
    exactly the fixed names, and the result depends on the ledger only
    through its names up to the fixed ones. *)
Lemma WriteCladeElement_spec (this : arrays) (input : vtkTree) (t : vtree) :
  ids_nonneg t ->
  forall st e st', WriteCladeElement this input t st = Some (e, st') ->
  clade_written (clade_fixed_names this input) t st e st' /\
  clade_rel (clade_fixed_names this input) (WriteCladeElement this input) t st e st'.
Proof.
  set (F := clade_fixed_names this input).
  revert t. apply (vtree_ind' (fun t => ids_nonneg t -> forall st e st',
    WriteCladeElement this input t st = Some (e, st') ->
    clade_written F t st e st' /\ clade_rel F (WriteCladeElement this input) t st e st')).
  intros v kids Hall [Hv Hkids] st e st' H.
  cbn [WriteCladeElement] in H.
  apply bind_Some in H as (e1 & st1 & H1 & H).
  apply bind_Some in H as (e2 & st2 & H2 & H).
  apply bind_Some in H as (e3 & st3 & H3 & H).
  apply bind_Some in H as (e4 & st4 & H4 & H).
  apply bind_Some in H as (e5 & st5 & H5 & H6).
  destruct (fixed_writers_chain _ _ _ _ _ _ _ _ _ _ _ _ _ H1 H2 H3 H4) as [C4 Hfw].
  destruct (Hfw st) as (sa1 & sa2 & sa3 & sa4 & E1 & E2 & E3 & E4 & Hem4 & (l4 & Hl4 & Hl4F) & HF4).
  assert (sa1 = st1) by congruence. subst sa1.
  assert (sa2 = st2) by congruence. subst sa2.
  assert (sa3 = st3) by congruence. subst sa3.
  assert (sa4 = st4) by congruence. subst sa4.
  assert (Hv1 : v <> -1) by lia.
  destruct (clade_properties_loop_spec _ _ _ _ _ _ _ Hv1 H5)
    as (C5 & Hbl5 & (E5 & HE5 & HE5x) & Hrel5).
  assert (Hkids' : Forall (fun k => forall st e st', WriteCladeElement this input k st = Some (e, st') ->
            clade_written F k st e st' /\ clade_rel F (WriteCladeElement this input) k st e st') kids).
  { apply ids_nonneg_kids in Hkids. clear -Hall Hkids.
    induction Hall as [|k ks Pk Pks IH]; constructor.
    - inversion Hkids; subst. apply Pk; assumption.
    - inversion Hkids; subst. apply IH; assumption. }
  assert (HF5 : forall s, In s F -> In s (ls_blacklist st5)) by (intros s Hs; rewrite Hbl5; apply HF4; exact Hs).
  destruct (WriteChildrenClades_spec F _ _ Hkids' _ _ _ _ HF5 H6)
    as (Rn & Rs & Rc & (l6 & Hl6) & Hi6 & (E6 & HE6 & HE6x) & Hrel6).
  assert (Hi4 : forall s, In s (ls_blacklist st4) <-> In s (ls_blacklist st) \/ In s F).
  { intros s. rewrite Hl4. split.
    - intros Hs. apply in_app_or in Hs as [Hs|Hs]; [left; exact Hs | right; apply Hl4F; exact Hs].
    - intros [Hs|Hs]; [apply in_or_app; left; exact Hs | rewrite <- Hl4; apply HF4; exact Hs]. }
  destruct (same_clades_trans _ _ _ C4 C5) as (N5 & S5 & K5).
  split.
  - unfold clade_written. simpl in N5, S5, K5.
    split; [congruence|]. split; [rewrite Rs, S5; reflexivity|].
    split; [rewrite Rc, K5; reflexivity|].
    split; [exists (l4 ++ l6); rewrite Hl6, Hbl5, Hl4, app_assoc; reflexivity|].
    split; [intros s; rewrite Hi6, Hbl5; apply Hi4|].
    exists (E5 ++ E6). rewrite HE6, HE5, Hem4, app_assoc. split; [reflexivity|].
    intros x Hx. apply in_app_or in Hx as [Hx|Hx]; [|apply HE6x; exact Hx].
    destruct (HE5x x Hx) as [Hfx Hnx]. split; [lia|].
    rewrite Hi6, Hbl5. exact Hnx.
  - intros sb Hib.
    destruct (Hfw sb) as (sb1 & sb2 & sb3 & sb4 & G1 & G2 & G3 & G4 & Gem & (m4 & Hm4 & Hm4F) & GF4).
    assert (Hi44 : forall s, In s (ls_blacklist st4) <-> In s (ls_blacklist sb4)).
    { intros s. rewrite Hi4, Hib, Hm4. split.
      - intros [Hs|Hs]; [apply in_or_app; left; exact Hs | rewrite <- Hm4; apply GF4; exact Hs].
      - intros Hs. apply in_app_or in Hs as [Hs|Hs]; [left; exact Hs | right; apply Hm4F; exact Hs]. }
    destruct (Hrel5 sb4 Hi44) as [em2 Hsb5].
    destruct (Hrel6 (mkLstate (ls_blacklist sb4) em2)) as (sb' & Hsb6 & Hib').
    { intros s Hs. apply GF4. exact Hs. }
    { intros s. rewrite Hbl5. apply Hi44. }
    exists sb'. split; [|exact Hib'].
    cbn [WriteCladeElement].
    rewrite (bind_Some_l _ _ _ _ _ G1), (bind_Some_l _ _ _ _ _ G2), (bind_Some_l _ _ _ _ _ G3),
      (bind_Some_l _ _ _ _ _ G4), (bind_Some_l _ _ _ _ _ Hsb5).
    exact Hsb6.
Qed.

Lemma WriteTreeLevelElement_same_clades input root en an e st st' :
  String.eqb en "clade" = false ->
  WriteTreeLevelElement input root en an st = Some (e, st') ->
  same_clades root e.
Proof.
  intros Hen H. unfold WriteTreeLevelElement in H.
  destruct (GetAbstractArray (VertexData input) ("phylogeny." ++ en)) as [array|].
  2:{ unfold ret in H. injection H as <- _. apply same_clades_refl. }
  apply bind_Some in H as (value & st1 & Hv & H).
  unfold lift in Hv. destruct (GetVariantValue array 0); [|discriminate].
  injection Hv as <- <-. cbv [bind IgnoreArray ret] in H. injection H as <- _.
  apply AddNested_same_clades;
    repeat match goal with |- context [if ?b then _ else _] => destruct b end;
    simpl; rewrite ?Hen; reflexivity.
Qed.

Lemma tree_level_properties_loop_same_clades cols el e st st' :
  tree_level_properties_loop cols el st = Some (e, st') -> same_clades el e.
Proof.
  revert el st; induction cols as [|c cs IH]; intros el st H; simpl in H.
  - unfold ret in H. injection H as <- _. apply same_clades_refl.
  - destruct (String.prefix "phylogeny.property." (col_name c)).
    + apply bind_Some in H as (el1 & st1 & H1 & H2).
      destruct (WritePropertyElement_spec _ _ _ _ _ _ H1) as [C1 _].
      eapply same_clades_trans; [exact C1 | exact (IH _ _ H2)].
    + exact (IH _ _ H).
Qed.

(** The [phylogeny] element: its only [clade] child mirrors the tree; the
    ledger grows by the tree-level names and the clade-level fixed names;
    the generic properties are the tree-level ones (vertex -1) followed by
    clade-level ones from arrays whose name is not in the final ledger; the
    result depends on the ledger only through its names up to those added. *)
Lemma BuildPhylogeny_spec this input st e st' :
  ids_nonneg (Root input) ->
  BuildPhylogeny this input st = Some (e, st') ->
  clades e = [tree_shape (Root input)] /\ count_clades e = tree_size (Root input) /\
  (exists l, ls_blacklist st' = ls_blacklist st ++ l) /\
  (forall s, In s (ls_blacklist st') <->
     In s (ls_blacklist st) \/ In s (tree_level_names input ++ clade_fixed_names this input)) /\
  (exists E, ls_emitted st' = ls_emitted st ++
       map (fun n => (-1, n)) (tree_property_names (VertexData input)) ++ E /\
     forall x, In x E -> 0 <= fst x /\ ~ In (snd x) (ls_blacklist st')) /\
  (forall st2, (forall s, In s (ls_blacklist st) \/
                  In s (tree_level_names input ++ clade_fixed_names this input) <->
                In s (ls_blacklist st2) \/
                  In s (tree_level_names input ++ clade_fixed_names this input)) ->
   exists st2', BuildPhylogeny this input st2 = Some (e, st2') /\
     forall s, In s (ls_blacklist st') <-> In s (ls_blacklist st2')).
Proof.
  intros Hids H. unfold BuildPhylogeny in H.
  apply bind_Some in H as (r1 & st1 & H1 & H).
  apply bind_Some in H as (r2 & st2 & H2 & H).
  apply bind_Some in H as (r3 & st3 & H3 & H).
  apply bind_Some in H as (r4 & st4 & H4 & H).
  apply bind_Some in H as (c & st5 & H5 & H6).
  unfold ret in H6. injection H6 as <- <-.
  unfold WriteTreeLevelProperties in H4.
  pose proof (WriteTreeLevelElement_same_clades _ _ "name" _ _ _ _ eq_refl H1) as C1.
  pose proof (WriteTreeLevelElement_same_clades _ _ "description" _ _ _ _ eq_refl H2) as C2.
  pose proof (WriteTreeLevelElement_same_clades _ _ "confidence" _ _ _ _ eq_refl H3) as C3.
  pose proof (tree_level_properties_loop_same_clades _ _ _ _ _ H4) as C4.
  pose proof (WriteTreeLevelElement_spec _ _ _ _ _ _ _ H1) as F1.
  pose proof (WriteTreeLevelElement_spec _ _ _ _ _ _ _ H2) as F2.
  pose proof (WriteTreeLevelElement_spec _ _ _ _ _ _ _ H3) as F3.
  pose proof (tree_level_properties_loop_spec _ _ _ _ _ H4) as F4.
  assert (E1 : st1 = mkLstate (ls_blacklist st ++ tree_element_name input "name") (ls_emitted st))
    by (rewrite (F1 st) in H1; congruence).
  assert (E2 : st2 = mkLstate (ls_blacklist st1 ++ tree_element_name input "description") (ls_emitted st1))
    by (rewrite (F2 st1) in H2; congruence).
  assert (E3 : st3 = mkLstate (ls_blacklist st2 ++ tree_element_name input "confidence") (ls_emitted st2))
    by (rewrite (F3 st2) in H3; congruence).
  assert (E4 : st4 = mkLstate (ls_blacklist st3 ++ tree_property_names (VertexData input))
                       (ls_emitted st3 ++ map (fun n => (-1, n)) (tree_property_names (VertexData input))))
    by (rewrite (F4 st3) in H4; congruence).
  assert (B4 : ls_blacklist st4 = ls_blacklist st ++ tree_level_names input).
  { rewrite E4, E3, E2, E1. simpl. unfold tree_level_names. rewrite <- !app_assoc. reflexivity. }
  assert (M4 : ls_emitted st4 = ls_emitted st ++
                 map (fun n => (-1, n)) (tree_property_names (VertexData input))).
  { rewrite E4, E3, E2, E1. reflexivity. }
  destruct (WriteCladeElement_spec this input (Root input) Hids _ _ _ H5)
    as [(Cn & Cs & Cc & (l5 & Hl5) & Hi5 & (E5 & HE5 & HE5x)) Hrel5].
  destruct (same_clades_trans _ _ _ C1 (same_clades_trans _ _ _ C2 (same_clades_trans _ _ _ C3 C4)))
    as (_ & S4 & K4).
  destruct (AddNested_clade r4 c Cn) as (_ & As & Ac).
  split; [rewrite As, S4, Cs; reflexivity|].
  split; [rewrite Ac, K4, Cc; reflexivity|].
  split; [exists (tree_level_names input ++ l5); rewrite Hl5, B4, app_assoc; reflexivity|].
  split.
  { intros s. rewrite Hi5, B4, !in_app_iff. tauto. }
  split.
  { exists E5. rewrite HE5, M4, app_assoc. split; [reflexivity | exact HE5x]. }
  intros sb Hib.
  destruct (Hrel5 (mkLstate (ls_blacklist sb ++ tree_level_names input)
                            (ls_emitted sb ++ map (fun n => (-1, n)) (tree_property_names (VertexData input)))))
    as (sb' & Hsb & Hisb).
  { intros s. simpl. rewrite B4, !in_app_iff. specialize (Hib s). rewrite !in_app_iff in Hib. tauto. }
  exists sb'. split; [|exact Hisb].
  unfold BuildPhylogeny.
  rewrite (bind_Some_l _ _ _ _ _ (F1 sb)), (bind_Some_l _ _ _ _ _ (F2 _)),
    (bind_Some_l _ _ _ _ _ (F3 _)).
  unfold WriteTreeLevelProperties in F4 |- *.
  rewrite (bind_Some_l _ _ _ _ _ (F4 _)).
  match goal with
  | |- bind _ _ ?S = _ =>
      replace S with (mkLstate (ls_blacklist sb ++ tree_level_names input)
                        (ls_emitted sb ++ map (fun n => (-1, n)) (tree_property_names (VertexData input))))
        by (simpl; unfold tree_level_names; rewrite <- !app_assoc; reflexivity)
  end.
  rewrite (bind_Some_l _ _ _ _ _ Hsb). reflexivity.
Qed.

(** Generic properties of a whole document: tree-level ones (vertex -1,
    from the [phylogeny.property.] arrays) and clade-level ones from arrays
    whose name is not in the final ledger. *)
Lemma BuildPhylogeny_emitted this input st e st' v n :
  ids_nonneg (Root input) -> ls_emitted st = [] ->
  BuildPhylogeny this input st = Some (e, st') ->
  In (v, n) (ls_emitted st') ->
  (v = -1 /\ String.prefix "phylogeny.property." n = true) \/
  (0 <= v /\ ~ In n (ls_blacklist st')).
Proof.
  intros Hids Hem H Hin.
  destruct (BuildPhylogeny_spec _ _ _ _ _ Hids H) as (_ & _ & _ & _ & (E & HE & HEx) & _).
  rewrite HE, Hem in Hin. simpl in Hin. apply in_app_or in Hin as [Hin|Hin].
  - left. apply in_map_iff in Hin as (n' & Hn' & Hin). injection Hn' as <- <-.
    split; [reflexivity|]. unfold tree_property_names in Hin.
    apply in_map_iff in Hin as (c & <- & Hc). apply filter_In in Hc as [_ Hc]. exact Hc.
  - right. exact (HEx _ Hin).
Qed.

(** The ledger after a write: the configuration is kept, and the ledger
    grows by the names the document build adds. *)
Lemma WriteData_ledger (w : writer) t r wa :
  ids_nonneg (Root t) ->
  WriteData w t = Some (r, wa) ->
  EdgeWeightArrayName wa = EdgeWeightArrayName w /\
  NodeNameArrayName wa = NodeNameArrayName w /\
  (exists l, Blacklist wa = Blacklist w ++ l) /\
  (forall s, In s (Blacklist w) \/ In s (tree_level_names t ++ clade_fixed_names
        (mkArrays (GetAbstractArray (EdgeData t) (EdgeWeightArrayName w))
                  (GetAbstractArray (VertexData t) (NodeNameArrayName w))) t) <->
             In s (Blacklist wa) \/ In s (tree_level_names t ++ clade_fixed_names
        (mkArrays (GetAbstractArray (EdgeData t) (EdgeWeightArrayName w))
                  (GetAbstractArray (VertexData t) (NodeNameArrayName w))) t)).
Proof.
  destruct w as [ewn nnn arr bl ec strm].
  cbv [EdgeWeightArrayName NodeNameArrayName Stream Blacklist]. intros Hids H.
  cbv [WriteData StartFile EndFile flush_and_check set_stream set_arrays set_blacklist set_error_code
       Stream Blacklist Arrays ErrorCode EdgeWeightArrayName NodeNameArrayName] in *.
  destruct (os_failed (os_flush (os_write phyloxml_header strm))) eqn:Hs;
    cbn -[BuildPhylogeny PrintXML os_flush os_write os_failed os_errno] in *.
  - injection H as <- <-. simpl.
    split; [reflexivity|]. split; [reflexivity|].
    split; [exists []; rewrite app_nil_r; reflexivity | tauto].
  - destruct (BuildPhylogeny _ t _) as [[e st]|] eqn:Hb; [|discriminate].
    destruct (BuildPhylogeny_spec _ _ _ _ _ Hids Hb) as (_ & _ & (l & Hl) & Hi & _).
    match type of H with context [if os_failed ?x then _ else _] => destruct (os_failed x) end;
      injection H as <- <-; simpl; simpl in Hl, Hi;
      (split; [reflexivity|]); (split; [reflexivity|]);
      (split; [exists l; exact Hl|]);
      intros s; rewrite Hi; tauto.
Qed.

(** Two writers with the same configuration and stream, whose ledgers
    hold the same names up to those a write of [t] adds, write the same. *)
Lemma WriteData_congr (w w' : writer) t r wa :
  EdgeWeightArrayName w' = EdgeWeightArrayName w ->
  NodeNameArrayName w' = NodeNameArrayName w ->
  Stream w' = Stream w ->
  ids_nonneg (Root t) ->
  (forall s, In s (Blacklist w) \/ In s (tree_level_names t ++ clade_fixed_names
        (mkArrays (GetAbstractArray (EdgeData t) (EdgeWeightArrayName w))
                  (GetAbstractArray (VertexData t) (NodeNameArrayName w))) t) <->
             In s (Blacklist w') \/ In s (tree_level_names t ++ clade_fixed_names
        (mkArrays (GetAbstractArray (EdgeData t) (EdgeWeightArrayName w))
                  (GetAbstractArray (VertexData t) (NodeNameArrayName w))) t)) ->
  WriteData w t = Some (r, wa) ->
  exists wb, WriteData w' t = Some (r, wb) /\ Stream wb = Stream wa.
Proof.
  destruct w as [ewn nnn arr bl ec strm]. destruct w' as [ewn' nnn' arr' bl' ec' strm'].
  cbv [EdgeWeightArrayName NodeNameArrayName Stream Blacklist]. intros -> -> -> Hids Hbl H.
  cbv [WriteData StartFile EndFile flush_and_check set_stream set_arrays set_blacklist set_error_code
       Stream Blacklist Arrays ErrorCode EdgeWeightArrayName NodeNameArrayName] in *.
  destruct (os_failed (os_flush (os_write phyloxml_header strm))) eqn:Hs;
    cbn -[BuildPhylogeny PrintXML os_flush os_write os_failed os_errno] in *.
  - injection H as <- <-. eexists; split; reflexivity.
  - destruct (BuildPhylogeny _ t _) as [[e st]|] eqn:Hb; [|discriminate].
    destruct (BuildPhylogeny_spec _ _ _ _ _ Hids Hb) as (_ & _ & _ & _ & _ & Hrel).
    destruct (Hrel (mkLstate bl' [])) as (st2 & Hb2 & _); [simpl; exact Hbl|].
    rewrite Hb2.
    match goal with |- context [if os_failed ?x then _ else _] => destruct (os_failed x) end;
      injection H as <- <-; eexists; split; reflexivity.
Qed.

(** ** Document structure *)

(** ** Fixed categories and the ledger *)

(** C2 (amended): after a document build that starts with no property
    written, every name of a fixed category present in the input (the
    configured edge weight and node name arrays, [confidence], [color] when
    it is an unsigned char array, [phylogeny.name], [phylogeny.description],
    [phylogeny.confidence], and the [phylogeny.property.] arrays) is in the
    ledger, and no generic property of a clade comes from an array of that
    name: the only generic properties with such a name are the tree-level
    ones of the [phylogeny.property.] arrays. *)
Theorem fixed_categories_in_ledger this input st e st' n :
  ids_nonneg (Root input) -> ls_emitted st = [] ->
  BuildPhylogeny this input st = Some (e, st') ->
  fixed_category_name this input n ->
  In n (ls_blacklist st') /\
  forall v, In (v, n) (ls_emitted st') ->
    v = -1 /\ String.prefix "phylogeny.property." n = true.
Proof.
  intros Hids Hem H Hn.
  assert (Hin : In n (ls_blacklist st')).
  { destruct (BuildPhylogeny_spec _ _ _ _ _ Hids H) as (_ & _ & _ & Hi & _).
    apply Hi. right. rewrite in_app_iff.
    unfold tree_level_names, clade_fixed_names, edge_weight_fixed, node_name_fixed,
      confidence_fixed, color_fixed, opt_list.
    rewrite !in_app_iff.
    destruct Hn as [(c & Hc & <-)|[(c & Hc & <-)|[(-> & Hc)|[(-> & c & p & Hc & Hp)|[(Hn & Hc)|(Hp & c & Hc & <-)]]]]].
    - right. rewrite Hc. simpl. tauto.
    - right. rewrite Hc. simpl. tauto.
    - right. destruct (GetAbstractArray (VertexData input) "confidence"); [simpl; tauto | congruence].
    - right. rewrite Hc, Hp. simpl. tauto.
    - left. unfold tree_element_name.
      destruct Hn as [ -> | [ -> | -> ] ]; simpl;
        destruct (GetAbstractArray (VertexData input) _); try congruence; simpl; tauto.
    - left. right. right. right. unfold tree_property_names.
      apply in_map_iff. exists c. split; [reflexivity|]. apply filter_In. split; assumption. }
  split; [exact Hin|].
  intros v Hv.
  destruct (BuildPhylogeny_emitted _ _ _ _ _ _ _ Hids Hem H Hv) as [Ht|(_ & Hn')].
  - exact Ht.
  - contradiction.
Qed.

Lemma fixed_categories_in_ledger_witness :
  exists e st', BuildPhylogeny tree3_arrays tree3 (mkLstate [] []) = Some (e, st') /\
    In "confidence" (ls_blacklist st') /\
    forall v, In (v, "confidence") (ls_emitted st') ->
      v = -1 /\ String.prefix "phylogeny.property." "confidence" = true.
Proof.
  eexists; eexists. split; [eval_lhs|].
  eapply (fixed_categories_in_ledger tree3_arrays tree3 (mkLstate [] [])).
  - simpl. repeat split; lia.
  - reflexivity.
  - vm_compute. reflexivity.
  - right. right. left. split; [reflexivity|]. intros Hc. vm_compute in Hc. discriminate Hc.
Defined.

(** C2 (counterexample): a vertex array named "color" that is not an
    unsigned char array is not inserted into the ledger and is written as a
    generic property of the root clade; the [phylogeny.property.] array is
    itself written as a (tree-level) generic property. *)
Lemma fixed_category_color_counterexample :
  exists e st', BuildPhylogeny (mkArrays None None) category_tree (mkLstate [] []) = Some (e, st') /\
    ~ In "color" (ls_blacklist st') /\ In (0, "color") (ls_emitted st') /\
    In (-1, "phylogeny.property.size") (ls_emitted st').
Proof.
  eexists; eexists. split; [eval_lhs|].
  split; [simpl; intros [H|[]]; discriminate H|].
  simpl. split; [right; left; reflexivity | left; reflexivity].
Qed.

(** C9: when the configured edge weight name names an edge array and a
    vertex array has the same name, that vertex array is never written as a
    generic property of a clade: the edge array's name enters the ledger in
    the branch length step of the root clade. *)
Theorem edge_weight_name_shadows_vertex_array this input st e st' ewa c :
  EdgeWeightArray this = Some ewa ->
  ids_nonneg (Root input) -> ls_emitted st = [] ->
  BuildPhylogeny this input st = Some (e, st') ->
  In c (VertexData input) -> col_name c = col_name ewa ->
  forall v, In (v, col_name c) (ls_emitted st') -> v = -1.
Proof.
  intros Hew Hids Hem H _ Hname v Hv.
  destruct (BuildPhylogeny_emitted _ _ _ _ _ _ _ Hids Hem H Hv) as [(Hv1 & _)|(_ & Hn)].
  - exact Hv1.
  - exfalso. apply Hn.
    destruct (BuildPhylogeny_spec _ _ _ _ _ Hids H) as (_ & _ & _ & Hi & _).
    apply Hi. right. rewrite Hname. apply in_app_iff. right.
    unfold clade_fixed_names, edge_weight_fixed. rewrite Hew. simpl. left. reflexivity.
Qed.

Lemma edge_weight_name_shadows_vertex_array_witness :
  exists e st', BuildPhylogeny tree3_arrays tree3 (mkLstate [] []) = Some (e, st') /\
    forall v, In (v, col_name node_weight_col) (ls_emitted st') -> v = -1.
Proof.
  eexists; eexists. split; [eval_lhs|].
  eapply (edge_weight_name_shadows_vertex_array tree3_arrays tree3 (mkLstate [] []) _ _ weight_col).
  - reflexivity.
  - simpl. repeat split; lia.
  - reflexivity.
  - vm_compute. reflexivity.
  - simpl. tauto.
  - reflexivity.
Defined.

(** ** Repeated writes *)

(** C6 counterexample: the ledger is not created anew for each write. It
    is a member created empty by the constructor and never cleared: after a
    write of the three-node tree it still holds the names that write
    inserted, and a second write with the same writer, of a tree whose only
    array is a vertex array named "weight", leaves out the property that a
    new writer writes. *)
Theorem ledger_survives_between_writes :
  Blacklist (vtkPhyloXMLTreeWriter_new good_stream) = [] /\
  exists w1, WriteData (vtkPhyloXMLTreeWriter_new good_stream) tree3 = Some (1, w1) /\
    Blacklist w1 = ["weight"; "node name"; "confidence"] /\
    write_output w1 weight_tree good_stream <>
    write_output (vtkPhyloXMLTreeWriter_new good_stream) weight_tree good_stream.
Proof.
  split; [reflexivity|].
  eexists. split; [eval_lhs|]. split; [vm_compute; reflexivity|].
  vm_compute. intros H. injection H. intros Ht. discriminate Ht.
Qed.

(** C8: a second write of the same tree, with the writer left by the first
    one (its ledger included), to a stream in the same initial state,
    returns the same value and writes the same text. *)
Theorem rerun_writes_same_output w t os r txt w1 :
  ids_nonneg (Root t) ->
  run_write w t os = Some (r, txt, w1) ->
  exists w2, run_write w1 t os = Some (r, txt, w2).
Proof.
  intros Hids H. unfold run_write in *.
  destruct (WriteData (set_stream os w) t) as [[r0 wa]|] eqn:Hw; [|discriminate].
  injection H as <- <- <-.
  destruct (WriteData_ledger _ _ _ _ Hids Hw) as (He & Hn & _ & Hbl).
  destruct (WriteData_congr (set_stream os w) (set_stream os wa) t r0 wa) as (wb & Hwb & Hs).
  - simpl. exact He.
  - simpl. exact Hn.
  - reflexivity.
  - exact Hids.
  - intros s. rewrite (Hbl s). simpl. tauto.
  - exact Hw.
  - exists wb. rewrite Hwb, Hs. reflexivity.
Qed.

Lemma rerun_writes_same_output_witness :
  exists r txt w1, run_write (vtkPhyloXMLTreeWriter_new good_stream) tree3 good_stream = Some (r, txt, w1) /\
    exists w2, run_write w1 tree3 good_stream = Some (r, txt, w2).
Proof.
  do 3 eexists. split; [eval_lhs|].
  apply (rerun_writes_same_output (vtkPhyloXMLTreeWriter_new good_stream) tree3 good_stream).
  - simpl. repeat split; lia.
  - vm_compute. reflexivity.
Defined.

(** ** Further properties of the writer *)

Lemma AddNested_appended (el c : elem) : AddNestedElement el c = appended el [c].
Proof. destruct el; reflexivity. Qed.

Lemma appended_nil (el : elem) : appended el [] = el.
Proof. destruct el; simpl; rewrite app_nil_r; reflexivity. Qed.

Lemma appended_app (el : elem) xs ys : appended (appended el xs) ys = appended el (xs ++ ys).
Proof. destruct el; simpl; rewrite app_assoc; reflexivity. Qed.

Lemma appended_name el xs : elem_name (appended el xs) = elem_name el.
Proof. destruct el; reflexivity. Qed.

Lemma appended_attrs el xs : elem_attrs (appended el xs) = elem_attrs el.
Proof. destruct el; reflexivity. Qed.

Lemma appended_nested el xs : elem_nested (appended el xs) = elem_nested el ++ xs.
Proof. destruct el; reflexivity. Qed.

Ltac close_appended :=
  first
    [ exists false, []; rewrite appended_nil; split; reflexivity
    | eexists true, [_]; rewrite AddNested_appended; split; reflexivity ].

Lemma WriteNameElement_appended this v el e st st' :
  WriteNameElement this v el st = Some (e, st') ->
  exists b xs, e = appended el xs /\ map elem_name xs = opt_tag b "name".
Proof. intros H. unfold WriteNameElement in H. run_M. crush_M; close_appended. Qed.

Lemma WriteConfidenceElement_appended input v el e st st' :
  WriteConfidenceElement input v el st = Some (e, st') ->
  exists b xs, e = appended el xs /\ map elem_name xs = opt_tag b "confidence".
Proof. intros H. unfold WriteConfidenceElement in H. run_M. crush_M; close_appended. Qed.

Lemma WriteColorElement_appended input v el e st st' :
  WriteColorElement input v el st = Some (e, st') ->
  exists b xs, e = appended el xs /\ map elem_name xs = opt_tag b "color".
Proof. intros H. unfold WriteColorElement in H. run_M. crush_M; close_appended. Qed.

Lemma WriteBranchLengthAttribute_cases this input v el e st st' :
  WriteBranchLengthAttribute this input v el st = Some (e, st') ->
  (e = el /\ (EdgeWeightArray this = None \/ GetParent input v = -1 \/
              GetEdgeId input (GetParent input v) v = -1)) \/
  exists ewa w, EdgeWeightArray this = Some ewa /\ GetParent input v <> -1 /\
    GetEdgeId input (GetParent input v) v <> -1 /\
    GetVariantValue ewa (GetEdgeId input (GetParent input v) v) = Some w /\
    e = SetAttribute "branch_length" (v_dbl w) el.
Proof.
  intros H. unfold WriteBranchLengthAttribute in H.
  destruct (EdgeWeightArray this) as [ewa|] eqn:Ew.
  - run_M.
    destruct (GetParent input v =? -1) eqn:Ep; simpl in H.
    + crush_M. all: left; split; [reflexivity|]; right; left; apply Z.eqb_eq; exact Ep.
    + destruct (GetEdgeId input (GetParent input v) v =? -1) eqn:Ee; simpl in H.
      * crush_M. all: left; split; [reflexivity|]; right; right; apply Z.eqb_eq; exact Ee.
      * destruct (GetVariantValue ewa (GetEdgeId input (GetParent input v) v)) as [w|] eqn:Ew';
          [|discriminate].
        crush_M. all: right; exists ewa, w;
          repeat split; try assumption; apply Z.eqb_neq; assumption.
  - run_M. crush_M. left. auto.
Qed.

Lemma WritePropertyElement_appended a v el e st st' :
  WritePropertyElement a v el st = Some (e, st') ->
  exists pe, e = appended el [pe] /\ elem_name pe = "property".
Proof.
  intros H. unfold WritePropertyElement in H. run_M. crush_M;
    eexists; (split; [apply AddNested_appended | reflexivity]).
Qed.

Lemma property_arrays_cons this B a cols :
  property_arrays this B (a :: cols) =
  if same_array a (NodeNameArray this) || same_array a (EdgeWeightArray this) then
    property_arrays this B cols
  else if existsb (String.eqb (col_name a)) B then property_arrays this B cols
  else a :: property_arrays this B cols.
Proof.
  unfold property_arrays. simpl.
  destruct (same_array a (NodeNameArray this) || same_array a (EdgeWeightArray this)); simpl;
    [reflexivity|].
  destruct (existsb (String.eqb (col_name a)) B); reflexivity.
Qed.

(** Internal form of the generic-property loop's outcome. *)
Lemma clade_properties_loop_exact this v cols el e st st' :
  v <> -1 ->
  clade_properties_loop this v cols el st = Some (e, st') ->
  st' = mkLstate (ls_blacklist st)
          (ls_emitted st ++ map (fun a => (v, col_name a))
                                (property_arrays this (ls_blacklist st) cols)) /\
  exists xs, e = appended el xs /\
    map elem_name xs = repeat "property" (List.length (property_arrays this (ls_blacklist st) cols)).
Proof.
  intros Hv. revert el st; induction cols as [|a rest IH]; intros el st H.
  - simpl in H. unfold ret in H. injection H as <- <-. simpl.
    rewrite app_nil_r. split; [destruct st; reflexivity|].
    exists []. rewrite appended_nil. split; reflexivity.
  - simpl in H. rewrite property_arrays_cons.
    destruct (same_array a (NodeNameArray this) || same_array a (EdgeWeightArray this)).
    + exact (IH _ _ H).
    + apply bind_Some in H as (bl & st0 & Hg & H).
      unfold get_blacklist in Hg. injection Hg as <- <-.
      rewrite LookupValue_eqb in H.
      destruct (existsb (String.eqb (col_name a)) (ls_blacklist st)); simpl in H.
      * exact (IH _ _ H).
      * apply bind_Some in H as (el1 & st1 & H1 & H2).
        destruct (WritePropertyElement_clade_level _ _ _ _ _ _ Hv H1) as (_ & -> & _).
        destruct (WritePropertyElement_appended _ _ _ _ _ _ H1) as (pe & -> & Hpe).
        destruct (IH _ _ H2) as (Hst & xs & -> & Hxs). simpl in Hst.
        split.
        -- rewrite Hst, <- app_assoc. reflexivity.
        -- exists (pe :: xs). rewrite appended_app. split; [reflexivity|].
           simpl. rewrite Hpe, Hxs. reflexivity.
Qed.

Lemma clade_properties_loop_appended this v cols el e st st' :
  clade_properties_loop this v cols el st = Some (e, st') ->
  exists xs, e = appended el xs /\ Forall (fun x => elem_name x = "property") xs.
Proof.
  revert el st; induction cols as [|a rest IH]; intros el st H.
  - simpl in H. unfold ret in H. injection H as <- <-.
    exists []. rewrite appended_nil. auto.
  - simpl in H.
    destruct (same_array a (NodeNameArray this) || same_array a (EdgeWeightArray this)).
    + exact (IH _ _ H).
    + apply bind_Some in H as (bl & st0 & Hg & H).
      unfold get_blacklist in Hg. injection Hg as <- <-.
      destruct (negb (LookupValue (ls_blacklist st) (col_name a) =? -1)).
      * exact (IH _ _ H).
      * apply bind_Some in H as (el1 & st1 & H1 & H2).
        destruct (WritePropertyElement_appended _ _ _ _ _ _ H1) as (pe & -> & Hpe).
        destruct (IH _ _ H2) as (xs & -> & Hxs).
        exists (pe :: xs). rewrite appended_app. auto.
Qed.

Lemma WriteChildrenClades_appended (f : vtree -> M elem) (P : elem -> Prop) ks el e st st' :
  (forall k st0 c st1, In k ks -> f k st0 = Some (c, st1) -> P c) ->
  WriteChildrenClades f ks el st = Some (e, st') ->
  exists cs, e = appended el cs /\ List.length cs = List.length ks /\ Forall P cs.
Proof.
  revert el st; induction ks as [|k ks IH]; intros el st Hf H.
  - simpl in H. unfold ret in H. injection H as <- <-.
    exists []. rewrite appended_nil. auto.
  - simpl in H. apply bind_Some in H as (c & st1 & H1 & H2).
    destruct (IH (AddNestedElement el c) st1) as (cs & -> & Hl & Hcs).
    + intros k' st0 c' st2 Hk. apply Hf. right. exact Hk.
    + exact H2.
    + exists (c :: cs). rewrite AddNested_appended, appended_app. simpl.
      split; [reflexivity|]. split; [congruence|].
      constructor; [eapply Hf; [left; reflexivity | exact H1] | exact Hcs].
Qed.

Lemma Forall_name_repeat (n : string) (xs : list elem) :
  Forall (fun x => elem_name x = n) xs -> map elem_name xs = repeat n (List.length xs).
Proof. induction 1; simpl; congruence. Qed.

Lemma WriteCladeElement_name this input t e st st' :
  WriteCladeElement this input t st = Some (e, st') -> elem_name e = "clade".
Proof.
  destruct t as [v kids]. intros H. simpl in H.
  apply bind_Some in H as (e1 & st1 & H1 & H).
  apply bind_Some in H as (e2 & st2 & H2 & H).
  apply bind_Some in H as (e3 & st3 & H3 & H).
  apply bind_Some in H as (e4 & st4 & H4 & H).
  apply bind_Some in H as (e5 & st5 & H5 & H6).
  destruct (WriteChildrenClades_appended _ (fun _ => True) _ _ _ _ _
              (fun _ _ _ _ _ _ => I) H6) as (cs & -> & _).
  destruct (clade_properties_loop_appended _ _ _ _ _ _ _ H5) as (xs & -> & _).
  destruct (WriteColorElement_appended _ _ _ _ _ _ H4) as (b3 & l3 & -> & _).
  destruct (WriteConfidenceElement_appended _ _ _ _ _ _ H3) as (b2 & l2 & -> & _).
  destruct (WriteNameElement_appended _ _ _ _ _ _ H2) as (b1 & l1 & -> & _).
  rewrite !appended_name.
  destruct (WriteBranchLengthAttribute_cases _ _ _ _ _ _ _ H1)
    as [[-> _] | (ewa & w & _ & _ & _ & _ & ->)]; reflexivity.
Qed.

(** The content of a clade element: [name], [confidence] and [color] each at
    most once and in that order, then the generic properties, then one nested
    [clade] per child of the vertex. *)
Theorem WriteCladeElement_layout this input v kids e st st' :
  WriteCladeElement this input (VNode v kids) st = Some (e, st') ->
  elem_name e = "clade" /\
  exists b1 b2 b3 k,
    map elem_name (elem_nested e) =
      (opt_tag b1 "name" ++ opt_tag b2 "confidence" ++ opt_tag b3 "color" ++
       repeat "property" k ++ repeat "clade" (List.length kids))%list.
Proof.
  intros H. split; [exact (WriteCladeElement_name _ _ _ _ _ _ H)|]. simpl in H.
  apply bind_Some in H as (e1 & st1 & H1 & H).
  apply bind_Some in H as (e2 & st2 & H2 & H).
  apply bind_Some in H as (e3 & st3 & H3 & H).
  apply bind_Some in H as (e4 & st4 & H4 & H).
  apply bind_Some in H as (e5 & st5 & H5 & H6).
  destruct (WriteChildrenClades_appended _ (fun c => elem_name c = "clade") _ _ _ _ _
              (fun k st0 c st1 _ Hk => WriteCladeElement_name _ _ _ _ _ _ Hk) H6)
    as (cs & -> & Hlen & Hcs).
  destruct (clade_properties_loop_appended _ _ _ _ _ _ _ H5) as (xs & -> & Hxs).
  destruct (WriteColorElement_appended _ _ _ _ _ _ H4) as (b3 & l3 & -> & Hl3).
  destruct (WriteConfidenceElement_appended _ _ _ _ _ _ H3) as (b2 & l2 & -> & Hl2).
  destruct (WriteNameElement_appended _ _ _ _ _ _ H2) as (b1 & l1 & -> & Hl1).
  exists b1, b2, b3, (List.length xs).
  rewrite !appended_nested, !map_app, Hl1, Hl2, Hl3, (Forall_name_repeat _ _ Hxs),
    (Forall_name_repeat _ _ Hcs), Hlen.
  destruct (WriteBranchLengthAttribute_cases _ _ _ _ _ _ _ H1)
    as [[-> _] | (ewa & w & _ & _ & _ & _ & ->)]; simpl; rewrite <- !app_assoc; reflexivity.
Qed.

(** The attributes of a clade element: exactly one [branch_length] attribute
    carrying the weight of the edge from its parent when an edge weight array
    is set, the vertex has a parent and the edge exists; none otherwise. *)
Theorem WriteCladeElement_attributes this input v kids e st st' :
  WriteCladeElement this input (VNode v kids) st = Some (e, st') ->
  (elem_attrs e = [] /\
   (EdgeWeightArray this = None \/ GetParent input v = -1 \/
    GetEdgeId input (GetParent input v) v = -1)) \/
  exists ewa w, EdgeWeightArray this = Some ewa /\ GetParent input v <> -1 /\
    GetEdgeId input (GetParent input v) v <> -1 /\
    GetVariantValue ewa (GetEdgeId input (GetParent input v) v) = Some w /\
    elem_attrs e = [("branch_length", v_dbl w)].
Proof.
  intros H. simpl in H.
  apply bind_Some in H as (e1 & st1 & H1 & H).
  apply bind_Some in H as (e2 & st2 & H2 & H).
  apply bind_Some in H as (e3 & st3 & H3 & H).
  apply bind_Some in H as (e4 & st4 & H4 & H).
  apply bind_Some in H as (e5 & st5 & H5 & H6).
  destruct (WriteChildrenClades_appended _ (fun _ => True) _ _ _ _ _
              (fun _ _ _ _ _ _ => I) H6) as (cs & -> & _).
  destruct (clade_properties_loop_appended _ _ _ _ _ _ _ H5) as (xs & -> & _).
  destruct (WriteColorElement_appended _ _ _ _ _ _ H4) as (b3 & l3 & -> & _).
  destruct (WriteConfidenceElement_appended _ _ _ _ _ _ H3) as (b2 & l2 & -> & _).
  destruct (WriteNameElement_appended _ _ _ _ _ _ H2) as (b1 & l1 & -> & _).
  rewrite !appended_attrs.
  destruct (WriteBranchLengthAttribute_cases _ _ _ _ _ _ _ H1)
    as [[-> Hc] | (ewa & w & Hw & Hp & He & Hv & ->)].
  - left. split; [reflexivity | exact Hc].
  - right. exists ewa, w. repeat split; assumption.
Qed.

Lemma property_arrays_iff this B B' cols :
  (forall s, In s B <-> In s B') -> property_arrays this B cols = property_arrays this B' cols.
Proof.
  intros Hi. unfold property_arrays. apply filter_ext. intros a. f_equal. f_equal.
  destruct (existsb (String.eqb (col_name a)) B) eqn:X1,
           (existsb (String.eqb (col_name a)) B') eqn:X2; try reflexivity; exfalso.
  - apply existsb_exists in X1 as (y & Hy & Hy'). apply String.eqb_eq in Hy'. subst y.
    apply Hi in Hy. assert (existsb (String.eqb (col_name a)) B' = true); [|congruence].
    apply existsb_exists. exists (col_name a). split; [exact Hy | apply String.eqb_refl].
  - apply existsb_exists in X2 as (y & Hy & Hy'). apply String.eqb_eq in Hy'. subst y.
    apply Hi in Hy. assert (existsb (String.eqb (col_name a)) B = true); [|congruence].
    apply existsb_exists. exists (col_name a). split; [exact Hy | apply String.eqb_refl].
Qed.

Lemma flat_map_flat_map' {A B C} (f : B -> list C) (g : A -> list B) (l : list A) :
  flat_map f (flat_map g l) = flat_map (fun x => flat_map f (g x)) l.
Proof. induction l as [|x l IH]; simpl; [reflexivity|]. rewrite flat_map_app, IH. reflexivity. Qed.

(** The generic properties a clade write records, vertex by vertex in
    pre-order, when the ledger names together with the fixed names are
    those of [B]. *)
Lemma WriteCladeElement_emitted (this : arrays) (input : vtkTree) (t : vtree) :
  ids_nonneg t -> forall B st e st',
  (forall s, In s (ls_blacklist st) \/ In s (clade_fixed_names this input) <-> In s B) ->
  WriteCladeElement this input t st = Some (e, st') ->
  ls_emitted st' = (ls_emitted st ++ flat_map (clade_emissions this input B) (preorder t))%list.
Proof.
  set (F := clade_fixed_names this input).
  revert t. apply (vtree_ind' (fun t => ids_nonneg t -> forall B st e st',
    (forall s, In s (ls_blacklist st) \/ In s F <-> In s B) ->
    WriteCladeElement this input t st = Some (e, st') ->
    ls_emitted st' = (ls_emitted st ++ flat_map (clade_emissions this input B) (preorder t))%list)).
  intros v kids Hall [Hv Hkids] B st e st' HB H.
  cbn [WriteCladeElement preorder flat_map] in *.
  apply bind_Some in H as (e1 & st1 & H1 & H).
  apply bind_Some in H as (e2 & st2 & H2 & H).
  apply bind_Some in H as (e3 & st3 & H3 & H).
  apply bind_Some in H as (e4 & st4 & H4 & H).
  apply bind_Some in H as (e5 & st5 & H5 & H6).
  destruct (fixed_writers_chain _ _ _ _ _ _ _ _ _ _ _ _ _ H1 H2 H3 H4) as [_ Hfw].
  destruct (Hfw st) as (sa1 & sa2 & sa3 & sa4 & E1 & E2 & E3 & E4 & Hem4 & (l4 & Hl4 & Hl4F) & HF4).
  assert (sa1 = st1) by congruence. subst sa1.
  assert (sa2 = st2) by congruence. subst sa2.
  assert (sa3 = st3) by congruence. subst sa3.
  assert (sa4 = st4) by congruence. subst sa4.
  assert (Hv1 : v <> -1) by lia.
  destruct (clade_properties_loop_exact _ _ _ _ _ _ _ Hv1 H5) as (-> & _).
  assert (Hi4 : forall s, In s (ls_blacklist st4) <-> In s B).
  { intros s. rewrite <- HB, Hl4. split.
    - intros Hs. apply in_app_or in Hs as [Hs|Hs]; [left; exact Hs | right; apply Hl4F; exact Hs].
    - intros [Hs|Hs]; [apply in_or_app; left; exact Hs | rewrite <- Hl4; apply HF4; exact Hs]. }
  rewrite (property_arrays_iff _ _ _ _ Hi4) in H6. simpl in H6.
  apply ids_nonneg_kids in Hkids.
  assert (Hch : forall ks el sa e' sa',
    Forall ids_nonneg ks ->
    Forall (fun k => ids_nonneg k -> forall B st e st',
      (forall s, In s (ls_blacklist st) \/ In s F <-> In s B) ->
      WriteCladeElement this input k st = Some (e, st') ->
      ls_emitted st' = (ls_emitted st ++ flat_map (clade_emissions this input B) (preorder k))%list) ks ->
    (forall s, In s (ls_blacklist sa) <-> In s B) ->
    WriteChildrenClades (WriteCladeElement this input) ks el sa = Some (e', sa') ->
    ls_emitted sa' = (ls_emitted sa ++ flat_map (clade_emissions this input B)
                                        (flat_map preorder ks))%list).
  { clear -HB HF4 Hi4. induction ks as [|k ks IH]; intros el sa e' sa' Hn Hp Hsa Hw.
    - simpl in Hw. unfold ret in Hw. injection Hw as <- <-. simpl. rewrite app_nil_r. reflexivity.
    - simpl in Hw. apply bind_Some in Hw as (c & sa1 & Hc & Hw).
      inversion Hn as [|? ? Hk Hks]; subst. inversion Hp as [|? ? Pk Pks]; subst.
      assert (HsaF : forall s, In s (ls_blacklist sa) \/ In s F <-> In s B).
      { intros s. rewrite <- Hsa. split; [|tauto]. intros [Hs|Hs]; [exact Hs|].
        apply Hsa, Hi4, HF4, Hs. }
      destruct (WriteCladeElement_spec this input k Hk _ _ _ Hc)
        as [(_ & _ & _ & _ & Hi1 & _) _].
      assert (Hsa1 : forall s, In s (ls_blacklist sa1) <-> In s B)
        by (intros s; rewrite Hi1; apply HsaF).
      rewrite (IH _ _ _ _ Hks Pks Hsa1 Hw), (Pk Hk B sa c sa1 HsaF Hc).
      simpl. rewrite flat_map_app, app_assoc. reflexivity. }
  rewrite (Hch _ _ (mkLstate (ls_blacklist st4) _) _ _ Hkids Hall Hi4 H6). simpl. rewrite Hem4.
  unfold clade_emissions at 1. rewrite <- app_assoc. reflexivity.
Qed.

(** The steps of [BuildPhylogeny]: the tree-level writers only append the
    tree-level names to the ledger and the tree-level properties to the
    record, then the root clade is written. *)
Lemma BuildPhylogeny_steps this input st e st' :
  BuildPhylogeny this input st = Some (e, st') ->
  exists r4 c, e = AddNestedElement r4 c /\
    WriteCladeElement this input (Root input)
      (mkLstate (ls_blacklist st ++ tree_level_names input)
                (ls_emitted st ++ map (fun n => (-1, n)) (tree_property_names (VertexData input))))
    = Some (c, st').
Proof.
  intros H. unfold BuildPhylogeny in H.
  apply bind_Some in H as (r1 & st1 & H1 & H).
  apply bind_Some in H as (r2 & st2 & H2 & H).
  apply bind_Some in H as (r3 & st3 & H3 & H).
  apply bind_Some in H as (r4 & st4 & H4 & H).
  apply bind_Some in H as (c & st5 & H5 & H6).
  unfold ret in H6. injection H6 as <- <-.
  unfold WriteTreeLevelProperties in H4.
  pose proof (WriteTreeLevelElement_spec _ _ _ _ _ _ _ H1) as F1.
  pose proof (WriteTreeLevelElement_spec _ _ _ _ _ _ _ H2) as F2.
  pose proof (WriteTreeLevelElement_spec _ _ _ _ _ _ _ H3) as F3.
  pose proof (tree_level_properties_loop_spec _ _ _ _ _ H4) as F4.
  assert (E1 : st1 = mkLstate (ls_blacklist st ++ tree_element_name input "name") (ls_emitted st))
    by (rewrite (F1 st) in H1; congruence).
  assert (E2 : st2 = mkLstate (ls_blacklist st1 ++ tree_element_name input "description") (ls_emitted st1))
    by (rewrite (F2 st1) in H2; congruence).
  assert (E3 : st3 = mkLstate (ls_blacklist st2 ++ tree_element_name input "confidence") (ls_emitted st2))
    by (rewrite (F3 st2) in H3; congruence).
  assert (E4 : st4 = mkLstate (ls_blacklist st3 ++ tree_property_names (VertexData input))
                       (ls_emitted st3 ++ map (fun n => (-1, n)) (tree_property_names (VertexData input))))
    by (rewrite (F4 st3) in H4; congruence).
  exists r4, c. split; [reflexivity|].
  replace (mkLstate (ls_blacklist st ++ tree_level_names input) _) with st4; [exact H5|].
  rewrite E4, E3, E2, E1. simpl. unfold tree_level_names. rewrite <- !app_assoc. reflexivity.
Qed.

(** The generic properties of a document, in writing order: first one per
    [phylogeny.property.] array at vertex -1, then, for each vertex in
    pre-order, one per vertex array that is neither the node name nor the
    edge weight array and whose name is neither in the ledger the build
    started from, nor a tree-level name, nor a clade-level fixed name. *)
Theorem BuildPhylogeny_generic_properties this input st e st' :
  ids_nonneg (Root input) ->
  BuildPhylogeny this input st = Some (e, st') ->
  ls_emitted st' =
    (ls_emitted st ++ map (fun n => (-1, n)) (tree_property_names (VertexData input)) ++
     flat_map (clade_emissions this input
                 (ls_blacklist st ++ tree_level_names input ++ clade_fixed_names this input))
              (preorder (Root input)))%list.
Proof.
  intros Hids H. destruct (BuildPhylogeny_steps _ _ _ _ _ H) as (r4 & c & _ & H5).
  erewrite (WriteCladeElement_emitted this input (Root input) Hids
             (ls_blacklist st ++ tree_level_names input ++ clade_fixed_names this input) _ c st');
    [| |exact H5].
  - simpl. rewrite <- app_assoc. reflexivity.
  - intros s. simpl. rewrite !in_app_iff. tauto.
Qed.

Lemma fresh_extension_refl (b : list string) : fresh_extension b b.
Proof. exists []. rewrite app_nil_r. split; [reflexivity|]. split; [constructor | intros x []]. Qed.

Lemma fresh_extension_trans (b1 b2 b3 : list string) :
  fresh_extension b1 b2 -> fresh_extension b2 b3 -> fresh_extension b1 b3.
Proof.
  intros (l1 & -> & N1 & F1) (l2 & -> & N2 & F2).
  exists (l1 ++ l2). rewrite app_assoc. split; [reflexivity|]. split.
  - apply NoDup_app; [exact N1 | exact N2 |].
    intros x Hx1 Hx2. apply (F2 x Hx2). apply in_or_app. right. exact Hx1.
  - intros x Hx. apply in_app_or in Hx as [Hx|Hx]; [exact (F1 x Hx)|].
    intros Hb. apply (F2 x Hx). apply in_or_app. left. exact Hb.
Qed.

Lemma guard_add_fresh (bl : list string) (nm : option string) :
  fresh_extension bl (bl ++ guard_add bl nm).
Proof.
  exists (guard_add bl nm). split; [reflexivity|]. destruct nm as [n|]; simpl.
  - destruct (LookupValue bl n =? -1) eqn:E.
    + split; [repeat constructor; intros []|].
      intros x [<-|[]]. apply LookupValue_not_found, Z.eqb_eq. exact E.
    + split; [constructor | intros x []].
  - split; [constructor | intros x []].
Qed.

Lemma WriteCladeElement_fresh_aux (this : arrays) (input : vtkTree) (t : vtree) :
  ids_nonneg t -> forall st e st',
  WriteCladeElement this input t st = Some (e, st') ->
  fresh_extension (ls_blacklist st) (ls_blacklist st').
Proof.
  revert t. apply (vtree_ind' (fun t => ids_nonneg t -> forall st e st',
    WriteCladeElement this input t st = Some (e, st') ->
    fresh_extension (ls_blacklist st) (ls_blacklist st'))).
  intros v kids Hall [Hv Hkids] st e st' H.
  cbn [WriteCladeElement] in H.
  apply bind_Some in H as (e1 & st1 & H1 & H).
  apply bind_Some in H as (e2 & st2 & H2 & H).
  apply bind_Some in H as (e3 & st3 & H3 & H).
  apply bind_Some in H as (e4 & st4 & H4 & H).
  apply bind_Some in H as (e5 & st5 & H5 & H6).
  assert (R1 : st1 = mkLstate (ls_blacklist st ++ guard_add (ls_blacklist st) (edge_weight_fixed this))
                              (ls_emitted st)).
  { destruct (WriteBranchLengthAttribute_spec _ _ _ _ _ _ _ H1) as [_ F]. rewrite F in H1. congruence. }
  assert (R2 : st2 = mkLstate (ls_blacklist st1 ++ guard_add (ls_blacklist st1) (node_name_fixed this))
                              (ls_emitted st1)).
  { destruct (WriteNameElement_spec _ _ _ _ _ _ H2) as [_ F]. rewrite F in H2. congruence. }
  assert (R3 : st3 = mkLstate (ls_blacklist st2 ++ guard_add (ls_blacklist st2) (confidence_fixed input))
                              (ls_emitted st2)).
  { destruct (WriteConfidenceElement_spec _ _ _ _ _ _ H3) as [_ F]. rewrite F in H3. congruence. }
  assert (R4 : st4 = mkLstate (ls_blacklist st3 ++ guard_add (ls_blacklist st3) (color_fixed input))
                              (ls_emitted st3)).
  { destruct (WriteColorElement_spec _ _ _ _ _ _ H4) as [_ F]. rewrite F in H4. congruence. }
  assert (Hv1 : v <> -1) by lia.
  destruct (clade_properties_loop_spec _ _ _ _ _ _ _ Hv1 H5) as (_ & Hbl5 & _).
  assert (X4 : fresh_extension (ls_blacklist st) (ls_blacklist st5)).
  { rewrite Hbl5, R4, R3, R2, R1. simpl.
    eapply fresh_extension_trans; [apply guard_add_fresh|].
    eapply fresh_extension_trans; [apply guard_add_fresh|].
    eapply fresh_extension_trans; [apply guard_add_fresh|].
    apply guard_add_fresh. }
  eapply fresh_extension_trans; [exact X4|].
  apply ids_nonneg_kids in Hkids. clear -Hall Hkids H6.
  revert e5 st5 H6. induction kids as [|k ks IH]; intros el sa Hw.
  - simpl in Hw. unfold ret in Hw. injection Hw as _ <-. apply fresh_extension_refl.
  - simpl in Hw. apply bind_Some in Hw as (c & sa1 & Hc & Hw).
    inversion Hkids as [|? ? Hk Hks]; subst. inversion Hall as [|? ? Pk Pks]; subst.
    eapply fresh_extension_trans; [exact (Pk Hk _ _ _ Hc) | exact (IH Pks Hks _ _ Hw)].
Qed.

(** A clade write only inserts names into the ledger that were not there,
    each at most once, after the names it already held. *)
Theorem WriteCladeElement_ledger_fresh this input t st e st' :
  ids_nonneg t ->
  WriteCladeElement this input t st = Some (e, st') ->
  fresh_extension (ls_blacklist st) (ls_blacklist st').
Proof. intros Hids H. exact (WriteCladeElement_fresh_aux this input t Hids _ _ _ H). Qed.

Lemma string_append_assoc (a b c : string) :
  ((a ++ b) ++ c)%string = (a ++ b ++ c)%string.
Proof. induction a as [|x a IH]; simpl; [reflexivity | rewrite IH; reflexivity]. Qed.

Lemma WriteData_cases (w : writer) t r w' :
  WriteData w t = Some (r, w') ->
  (os_failed (os_flush (os_write phyloxml_header (Stream w))) = true /\ r = 0 /\
   os_text (Stream w') = (os_text (Stream w) ++ phyloxml_header)%string /\
   ErrorCode w' = os_errno (Stream w) /\ Blacklist w' = Blacklist w) \/
  (os_failed (os_flush (os_write phyloxml_header (Stream w))) = false /\ r = 1 /\
   exists e st, BuildPhylogeny (write_arrays w t) t (mkLstate (Blacklist w) []) = Some (e, st) /\
     Blacklist w' = ls_blacklist st /\
     os_text (Stream w') =
       (os_text (Stream w) ++ phyloxml_header ++ PrintXML e ++ "</phyloxml>" ++
        String (ascii_of_nat 10) EmptyString)%string).
Proof.
  destruct w as [ewn nnn arr bl ec strm]. intros H. unfold write_arrays.
  cbv [WriteData StartFile EndFile flush_and_check set_stream set_arrays set_blacklist set_error_code
       Stream Blacklist Arrays ErrorCode EdgeWeightArrayName NodeNameArrayName] in *.
  assert (Hfl : forall os, os_text (os_flush os) = os_text os /\ os_errno (os_flush os) = os_errno os)
    by (intros [tx f l n]; destruct l; split; reflexivity).
  destruct (os_failed (os_flush (os_write phyloxml_header strm))) eqn:Hs;
    cbn -[BuildPhylogeny PrintXML os_flush os_write os_failed os_errno phyloxml_header] in *.
  - injection H as <- <-. left. simpl.
    rewrite (proj1 (Hfl _)), (proj2 (Hfl _)). repeat split; reflexivity.
  - destruct (BuildPhylogeny _ t _) as [[e st]|] eqn:Hb; [|discriminate].
    right. split; [reflexivity|].
    match type of H with context [if os_failed ?x then _ else _] => destruct (os_failed x) end;
      injection H as <- <-; (split; [reflexivity|]); exists e, st; (split; [reflexivity|]);
      (split; [reflexivity|]);
      rewrite !(proj1 (Hfl _)); cbn [os_text os_write]; rewrite !(proj1 (Hfl _));
      cbn [os_text os_write]; rewrite !string_append_assoc; reflexivity.
Qed.


Lemma BuildPhylogeny_ledger_fresh this input st e st' :
  ids_nonneg (Root input) ->
  BuildPhylogeny this input st = Some (e, st') ->
  fresh_extension (ls_blacklist st ++ tree_level_names input) (ls_blacklist st').
Proof.
  intros Hids H. destruct (BuildPhylogeny_steps _ _ _ _ _ H) as (r4 & c & _ & H5).
  exact (WriteCladeElement_fresh_aux _ _ _ Hids _ _ _ H5).
Qed.

(** The ledger after [WriteData]: unchanged when the header cannot be
    flushed; otherwise the tree-level names are appended once more, even
    those already in the ledger, followed by clade-level fixed names that
    were not in it, each once, after which every clade-level fixed name is
    in the ledger. *)
Theorem WriteData_ledger_growth (w : writer) t r w' :
  ids_nonneg (Root t) ->
  WriteData w t = Some (r, w') ->
  (r = 0 /\ Blacklist w' = Blacklist w) \/
  (r = 1 /\ exists l, Blacklist w' = (Blacklist w ++ tree_level_names t ++ l)%list /\ NoDup l /\
     (forall x, In x l -> ~ In x (Blacklist w ++ tree_level_names t) /\
                          In x (clade_fixed_names (write_arrays w t) t)) /\
     (forall x, In x (clade_fixed_names (write_arrays w t) t) -> In x (Blacklist w'))).
Proof.
  intros Hids H.
  destruct (WriteData_cases _ _ _ _ H) as [(_ & Hr & _ & _ & Hb) | (_ & Hr & e & st & Hb & Hbl & _)].
  - left. split; assumption.
  - right. split; [exact Hr|].
    destruct (BuildPhylogeny_ledger_fresh _ _ _ _ _ Hids Hb) as (l & Hl & Hnd & Hfr).
    destruct (BuildPhylogeny_spec _ _ _ _ _ Hids Hb) as (_ & _ & _ & Hi & _).
    simpl in Hl, Hi. exists l. rewrite Hbl, Hl, <- app_assoc.
    split; [reflexivity|]. split; [exact Hnd|]. split.
    + intros x Hx. split; [exact (Hfr x Hx)|].
      assert (Hx' : In x (ls_blacklist st)) by (rewrite Hl; apply in_or_app; right; exact Hx).
      apply Hi in Hx' as [Hx'|Hx']; [exfalso; apply (Hfr x Hx); apply in_or_app; left; exact Hx'|].
      apply in_app_or in Hx' as [Hx'|Hx']; [|exact Hx'].
      exfalso. apply (Hfr x Hx). apply in_or_app. right. exact Hx'.
    + intros x Hx. rewrite app_assoc, <- Hl. apply Hi. right. apply in_or_app. right. exact Hx.
Qed.

(** The text [WriteData] writes to its stream: the [phyloxml] opening tag
    alone, with the error code set from the stream, when flushing it fails;
    otherwise the opening tag, the serialized [phylogeny] element built from
    the writer's ledger, and the closing tag. *)
Theorem WriteData_stream_framing (w : writer) t r w' :
  WriteData w t = Some (r, w') ->
  (os_failed (os_flush (os_write phyloxml_header (Stream w))) = true /\ r = 0 /\
   os_text (Stream w') = (os_text (Stream w) ++ phyloxml_header)%string /\
   ErrorCode w' = os_errno (Stream w) /\ Blacklist w' = Blacklist w) \/
  (os_failed (os_flush (os_write phyloxml_header (Stream w))) = false /\ r = 1 /\
   exists e st, BuildPhylogeny (write_arrays w t) t (mkLstate (Blacklist w) []) = Some (e, st) /\
     Blacklist w' = ls_blacklist st /\
     os_text (Stream w') =
       (os_text (Stream w) ++ phyloxml_header ++ PrintXML e ++ "</phyloxml>" ++
        String (ascii_of_nat 10) EmptyString)%string).
Proof. exact (WriteData_cases w t r w'). Qed.

(** [GetArrayAttribute] returns the value of the first key of that name that
    is a string key, skipping keys of the same name of other kinds, and the
    empty string when there is no string key of that name. *)
Theorem GetArrayAttribute_first_string_key (array : column) (a : string) :
  (forall l1 s l2, col_info array = (l1 ++ (a, IStr s) :: l2)%list ->
     (forall s', ~ In (a, IStr s') l1) -> GetArrayAttribute array a = s) /\
  ((forall s', ~ In (a, IStr s') (col_info array)) -> GetArrayAttribute array a = "").
Proof.
  unfold GetArrayAttribute. generalize (col_info array) as info. split.
  - intros l1. revert info. induction l1 as [|[k iv] l1 IH]; intros info s l2 -> Hn; simpl.
    + rewrite String.eqb_refl. reflexivity.
    + destruct (String.eqb k a) eqn:Ek.
      * apply String.eqb_eq in Ek. subst k. destruct iv as [s'|].
        -- exfalso. apply (Hn s'). left. reflexivity.
        -- apply (IH _ s l2 eq_refl). intros s' Hs'. apply (Hn s'). right. exact Hs'.
      * apply (IH _ s l2 eq_refl). intros s' Hs'. apply (Hn s'). right. exact Hs'.
  - induction info as [|[k iv] info IH]; intros Hn; simpl; [reflexivity|].
    destruct (String.eqb k a) eqn:Ek.
    + apply String.eqb_eq in Ek. subst k. destruct iv as [s'|].
      * exfalso. apply (Hn s'). left. reflexivity.
      * apply IH. intros s' Hs'. apply (Hn s'). right. exact Hs'.
    + apply IH. intros s' Hs'. apply (Hn s'). right. exact Hs'.
Qed.

(** The generic-property loop of a clade (vertex id not -1): it leaves the
    ledger alone, records one property per vertex array that is neither the
    node name nor the edge weight array and whose name is not in the ledger,
    in array order, and appends exactly that many [property] elements. *)
Theorem clade_properties_written_in_order this v cols el e st st' :
  v <> -1 ->
  clade_properties_loop this v cols el st = Some (e, st') ->
  st' = mkLstate (ls_blacklist st)
          (ls_emitted st ++ map (fun a => (v, col_name a))
                                (property_arrays this (ls_blacklist st) cols)) /\
  exists xs, e = appended el xs /\
    map elem_name xs = repeat "property" (List.length (property_arrays this (ls_blacklist st) cols)).
Proof. intros Hv H. exact (clade_properties_loop_exact _ _ _ _ _ _ _ Hv H). Qed.

Lemma WriteTreeLevelElement_appended input root en an e st st' :
  WriteTreeLevelElement input root en an st = Some (e, st') ->
  exists xs, e = appended root xs /\ map elem_name xs = tree_element_tag input en.
Proof.
  intros H. unfold WriteTreeLevelElement, tree_element_tag in *.
  destruct (GetAbstractArray (VertexData input) ("phylogeny." ++ en)) as [array|].
  - run_M. crush_M; eexists [_]; rewrite AddNested_appended; split; reflexivity.
  - unfold ret in H. injection H as <- _. exists []. rewrite appended_nil. split; reflexivity.
Qed.

Lemma tree_level_properties_loop_appended cols el e st st' :
  tree_level_properties_loop cols el st = Some (e, st') ->
  exists xs, e = appended el xs /\
    map elem_name xs = repeat "property" (List.length (tree_property_names cols)).
Proof.
  revert el st; induction cols as [|c cs IH]; intros el st H; simpl in H.
  - unfold ret in H. injection H as <- _. exists []. rewrite appended_nil. split; reflexivity.
  - unfold tree_property_names. simpl.
    destruct (String.prefix "phylogeny.property." (col_name c)).
    + apply bind_Some in H as (el1 & st1 & H1 & H2).
      destruct (WritePropertyElement_appended _ _ _ _ _ _ H1) as (pe & -> & Hpe).
      destruct (IH _ _ H2) as (xs & -> & Hxs).
      exists (pe :: xs). rewrite appended_app. split; [reflexivity|].
      simpl. rewrite Hpe, Hxs. reflexivity.
    + exact (IH _ _ H).
Qed.

(** The [phylogeny] element: attribute [rooted="true"], then the [name],
    [description] and [confidence] elements for the [phylogeny.*] arrays
    present, one [property] per [phylogeny.property.] array, and a single
    [clade] element last. *)
Theorem BuildPhylogeny_layout this input st e st' :
  BuildPhylogeny this input st = Some (e, st') ->
  elem_name e = "phylogeny" /\ elem_attrs e = [("rooted", "true")] /\
  map elem_name (elem_nested e) =
    (tree_element_tags input ++
     repeat "property" (List.length (tree_property_names (VertexData input))) ++ ["clade"])%list.
Proof.
  intros H. unfold BuildPhylogeny in H.
  apply bind_Some in H as (r1 & st1 & H1 & H).
  apply bind_Some in H as (r2 & st2 & H2 & H).
  apply bind_Some in H as (r3 & st3 & H3 & H).
  apply bind_Some in H as (r4 & st4 & H4 & H).
  apply bind_Some in H as (c & st5 & H5 & H6).
  unfold ret in H6. injection H6 as <- <-.
  unfold WriteTreeLevelProperties in H4.
  pose proof (WriteCladeElement_name _ _ _ _ _ _ H5) as Hc.
  destruct (tree_level_properties_loop_appended _ _ _ _ _ H4) as (x4 & -> & Hx4).
  destruct (WriteTreeLevelElement_appended _ _ _ _ _ _ _ H3) as (x3 & -> & Hx3).
  destruct (WriteTreeLevelElement_appended _ _ _ _ _ _ _ H2) as (x2 & -> & Hx2).
  destruct (WriteTreeLevelElement_appended _ _ _ _ _ _ _ H1) as (x1 & -> & Hx1).
  rewrite AddNested_appended, !appended_app. simpl.
  split; [reflexivity|]. split; [reflexivity|].
  rewrite !map_app, Hx1, Hx2, Hx3, Hx4. simpl. rewrite Hc.
  unfold tree_element_tags. rewrite <- !app_assoc. reflexivity.
Qed.

Lemma property_info_scan_app l1 l2 acc :
  property_info_scan (l1 ++ l2) acc =
  match property_info_scan l1 acc with Some acc1 => property_info_scan l2 acc1 | None => None end.
Proof.
  revert acc; induction l1 as [|[k iv] l1 IH]; intros acc; simpl; [reflexivity|].
  destruct iv as [s|]; [|reflexivity]. destruct acc as [[au ap] un]. apply IH.
Qed.

Ltac scan_keys_cases Hk :=
  destruct Hk as [<-|[<-|[<-|[]]]].

Lemma scan_step_field k k' s au ap un :
  In k scan_keys ->
  info_field k (if String.eqb k' "authority" then (s, ap, un)
                else if String.eqb k' "applies_to" then (au, s, un)
                else if String.eqb k' "unit" then (au, ap, s) else (au, ap, un)) =
  if String.eqb k' k then s else info_field k (au, ap, un).
Proof.
  intros Hk.
  destruct (String.eqb k' "authority") eqn:E1;
    [apply String.eqb_eq in E1; subst k'; scan_keys_cases Hk; reflexivity|].
  destruct (String.eqb k' "applies_to") eqn:E2;
    [apply String.eqb_eq in E2; subst k'; scan_keys_cases Hk; reflexivity|].
  destruct (String.eqb k' "unit") eqn:E3;
    [apply String.eqb_eq in E3; subst k'; scan_keys_cases Hk; reflexivity|].
  scan_keys_cases Hk; simpl; rewrite ?E1, ?E2, ?E3; reflexivity.
Qed.

Lemma property_info_scan_keeps k info acc res :
  In k scan_keys -> property_info_scan info acc = Some res ->
  (forall s', ~ In (k, IStr s') info) -> info_field k res = info_field k acc.
Proof.
  intros Hk. revert acc; induction info as [|[k0 iv] r IH]; intros acc H Hn; simpl in H.
  - injection H as <-. reflexivity.
  - destruct iv as [s0|]; [|discriminate].
    destruct acc as [[au ap] un].
    rewrite (IH _ H); [| intros s' Hs'; apply (Hn s'); right; exact Hs'].
    rewrite scan_step_field by exact Hk.
    destruct (String.eqb k0 k) eqn:E; [|reflexivity].
    apply String.eqb_eq in E. subst k0. exfalso. apply (Hn s0). left. reflexivity.
Qed.

(** The metadata scan of [WritePropertyElement] keeps, for each of the keys
    [authority], [applies_to] and [unit], the value of the last string key
    of that name, and the initial value when there is none. *)
Theorem property_info_scan_last_key_wins k info acc res :
  In k scan_keys -> property_info_scan info acc = Some res ->
  (forall l1 s l2, info = (l1 ++ (k, IStr s) :: l2)%list ->
     (forall s', ~ In (k, IStr s') l2) -> info_field k res = s) /\
  ((forall s', ~ In (k, IStr s') info) -> info_field k res = info_field k acc).
Proof.
  intros Hk H. split.
  - intros l1 s l2 -> Hn. rewrite property_info_scan_app in H.
    destruct (property_info_scan l1 acc) as [acc1|]; [|discriminate].
    simpl in H. destruct acc1 as [[au ap] un].
    rewrite (property_info_scan_keeps _ _ _ _ Hk H Hn).
    rewrite scan_step_field by exact Hk. rewrite String.eqb_refl. reflexivity.
  - exact (property_info_scan_keeps _ _ _ _ Hk H).
Qed.

(** A property element: the value is read from row 0 for a tree-level
    property (vertex -1) and from the vertex's row otherwise; the attributes
    are [datatype], [ref] and [applies_to] in that order ([VTK] and [clade]
    standing in for an empty authority and target), followed by [unit] only
    when the scan found a non-empty unit; the text is the value. *)
Theorem WritePropertyElement_content a v el e st st' :
  WritePropertyElement a v el st = Some (e, st') ->
  exists au ap un val,
    property_info_scan (col_info a) ("", "", "") = Some (au, ap, un) /\
    GetVariantValue a (if v =? -1 then 0 else v) = Some val /\
    e = appended el
          [Elem "property"
             ([("datatype", datatype_of (v_type val));
               ("ref", ((if String.eqb au "" then "VTK" else au) ++ ":" ++
                        property_name (col_name a))%string);
               ("applies_to", if String.eqb ap "" then "clade" else ap)] ++
              (if String.eqb un "" then [] else [("unit", un)]))
             (v_str val) []].
Proof.
  intros H. unfold WritePropertyElement in H.
  apply bind_Some in H as ([[au ap] un] & st1 & H1 & H).
  unfold lift in H1. destruct (property_info_scan (col_info a) ("", "", "")) as [acc|] eqn:Es;
    [|discriminate]. injection H1 as -> <-.
  exists au, ap, un.
  apply bind_Some in H as (row & st2 & H2 & H).
  apply bind_Some in H as (val & st3 & H3 & H).
  assert (Hrow : row = if v =? -1 then 0 else v).
  { destruct (v =? -1); run_M; congruence. }
  subst row. unfold lift in H3.
  destruct (GetVariantValue a (if v =? -1 then 0 else v)) as [val'|]; [|discriminate].
  injection H3 as <- <-. exists val'. split; [reflexivity|]. split; [reflexivity|].
  run_M. injection H as <- _. rewrite AddNested_appended. f_equal. f_equal.
  destruct (String.eqb un ""); reflexivity.
Qed.

(** A vertex whose name is the empty string gets no [name] element; the node
    name array is still reserved in the ledger when it was not there. *)
Theorem WriteNameElement_empty_name this v el st nna val :
  NodeNameArray this = Some nna -> GetVariantValue nna v = Some val -> v_str val = "" ->
  WriteNameElement this v el st =
    Some (el, mkLstate (ls_blacklist st ++ guard_add (ls_blacklist st) (Some (col_name nna)))
                       (ls_emitted st)).
Proof.
  intros Hn Hv He. unfold WriteNameElement. rewrite Hn. run_M. rewrite Hv, He. simpl.
  destruct (LookupValue (ls_blacklist st) (col_name nna) =? -1); simpl;
    destruct st; rewrite ?app_nil_r; reflexivity.
Qed.

(** A vertex whose confidence is the empty string gets no [confidence]
    element; the name [confidence] is still reserved in the ledger when it
    was not there. *)
Theorem WriteConfidenceElement_empty_value input v el st ca val :
  GetAbstractArray (VertexData input) "confidence" = Some ca ->
  GetVariantValue ca v = Some val -> v_str val = "" ->
  WriteConfidenceElement input v el st =
    Some (el, mkLstate (ls_blacklist st ++ guard_add (ls_blacklist st) (Some "confidence"))
                       (ls_emitted st)).
Proof.
  intros Hc Hv He. unfold WriteConfidenceElement. rewrite Hc. run_M. rewrite Hv, He. simpl.
  destruct (LookupValue (ls_blacklist st) "confidence" =? -1); simpl;
    destruct st; rewrite ?app_nil_r; reflexivity.
Qed.

Lemma GetAbstractArray_in cols n c :
  GetAbstractArray cols n = Some c -> In c cols /\ col_name c = n.
Proof.
  induction cols as [|c' cs IH]; simpl; [discriminate|].
  destruct (String.eqb (col_name c') n) eqn:E.
  - intros [= <-]. split; [left; reflexivity | apply String.eqb_eq; exact E].
  - intros H. destruct (IH H) as [Hi Hn]. split; [right; exact Hi | exact Hn].
Qed.

Lemma existsb_eqb_false (s : string) (l : list string) :
  ~ In s l -> existsb (String.eqb s) l = false.
Proof.
  intros Hn. apply Bool.not_true_iff_false. intros Hx.
  apply existsb_exists in Hx as (y & Hy & Hy'). apply String.eqb_eq in Hy'. subst y. auto.
Qed.

(** A vertex array named [color] that is not an unsigned char array gets no
    [color] element and is not reserved: the color writer leaves the clade
    element and the state as they are. Unless the ledger, the node name or
    the edge weight array already claims it, every clade writes it as a
    generic property. *)
Theorem non_uchar_color_written_as_property this input v kids st e st' c :
  ids_nonneg (VNode v kids) ->
  GetAbstractArray (VertexData input) "color" = Some c -> col_uchar c = None ->
  same_array c (NodeNameArray this) = false -> same_array c (EdgeWeightArray this) = false ->
  edge_weight_fixed this <> Some "color" -> node_name_fixed this <> Some "color" ->
  ~ In "color" (ls_blacklist st) ->
  WriteCladeElement this input (VNode v kids) st = Some (e, st') ->
  (forall el st0, WriteColorElement input v el st0 = Some (el, st0)) /\
  In (v, "color") (ls_emitted st').
Proof.
  intros Hids Hc Hu Hn Hw Hew Hnn Hbl H. split.
  { intros el st0. unfold WriteColorElement. rewrite Hc, Hu. reflexivity. }
  erewrite (WriteCladeElement_emitted this input (VNode v kids) Hids
              (ls_blacklist st ++ clade_fixed_names this input) st e st'); [| |exact H].
  2:{ intros s. rewrite in_app_iff. reflexivity. }
  apply in_or_app. right. simpl. apply in_or_app. left.
  destruct (GetAbstractArray_in _ _ _ Hc) as [Hin Hname].
  unfold clade_emissions. apply in_map_iff. exists c. split; [rewrite Hname; reflexivity|].
  unfold property_arrays. apply filter_In. split; [exact Hin|].
  rewrite Hn, Hw, Hname, existsb_eqb_false; [reflexivity|].
  rewrite in_app_iff. intros [Hs|Hs]; [exact (Hbl Hs)|].
  unfold clade_fixed_names, color_fixed, confidence_fixed in Hs. rewrite Hc, Hu in Hs.
  rewrite !in_app_iff in Hs.
  destruct Hs as [Hs|[Hs|[Hs|Hs]]].
  - destruct (edge_weight_fixed this) as [x|]; simpl in Hs; [|exact Hs].
    destruct Hs as [->|[]]. apply Hew. reflexivity.
  - destruct (node_name_fixed this) as [x|]; simpl in Hs; [|exact Hs].
    destruct Hs as [->|[]]. apply Hnn. reflexivity.
  - destruct (GetAbstractArray (VertexData input) "confidence"); simpl in Hs;
      [destruct Hs as [Hs|[]]; discriminate Hs | exact Hs].
  - exact Hs.
Qed.

Lemma clade_properties_written_in_order_witness :
  2 <> -1 /\
  exists e st', clade_properties_loop tree3_arrays 2 (VertexData tree3) (NewElement "clade")
                  (mkLstate ["confidence"] []) = Some (e, st') /\
  st' = mkLstate ["confidence"]
          ([] ++ map (fun a => (2, col_name a))
                    (property_arrays tree3_arrays ["confidence"] (VertexData tree3))) /\
  exists xs, e = appended (NewElement "clade") xs /\
    map elem_name xs =
      repeat "property" (List.length (property_arrays tree3_arrays ["confidence"] (VertexData tree3))).
Proof.
  split; [lia|]. do 2 eexists. split; [eval_lhs|].
  eapply (clade_properties_written_in_order tree3_arrays 2 (VertexData tree3)
            (NewElement "clade") _ (mkLstate ["confidence"] [])).
  - lia.
  - vm_compute. reflexivity.
Defined.

Lemma BuildPhylogeny_generic_properties_witness :
  ids_nonneg (Root tree3) /\
  exists e st', BuildPhylogeny tree3_arrays tree3 (mkLstate [] []) = Some (e, st') /\
  ls_emitted st' =
    ([] ++ map (fun n => (-1, n)) (tree_property_names (VertexData tree3)) ++
     flat_map (clade_emissions tree3_arrays tree3
                 ([] ++ tree_level_names tree3 ++ clade_fixed_names tree3_arrays tree3))
              (preorder (Root tree3)))%list.
Proof.
  split; [simpl; repeat split; lia|]. do 2 eexists. split; [eval_lhs|].
  eapply (BuildPhylogeny_generic_properties tree3_arrays tree3 (mkLstate [] [])).
  - simpl. repeat split; lia.
  - vm_compute. reflexivity.
Defined.

Lemma WriteCladeElement_layout_witness :
  exists e st', WriteCladeElement tree3_arrays tree3 (Root tree3) (mkLstate [] []) = Some (e, st') /\
  elem_name e = "clade" /\
  exists b1 b2 b3 k,
    map elem_name (elem_nested e) =
      (opt_tag b1 "name" ++ opt_tag b2 "confidence" ++ opt_tag b3 "color" ++
       repeat "property" k ++ repeat "clade" 2)%list.
Proof.
  do 2 eexists. split; [eval_lhs|].
  eapply (WriteCladeElement_layout tree3_arrays tree3 0 [VNode 1 []; VNode 2 []] _ (mkLstate [] [])).
  vm_compute. reflexivity.
Defined.

Lemma WriteCladeElement_attributes_witness :
  exists e st', WriteCladeElement tree3_arrays tree3 (VNode 1 []) (mkLstate [] []) = Some (e, st') /\
  ((elem_attrs e = [] /\
    (EdgeWeightArray tree3_arrays = None \/ GetParent tree3 1 = -1 \/
     GetEdgeId tree3 (GetParent tree3 1) 1 = -1)) \/
   exists ewa w, EdgeWeightArray tree3_arrays = Some ewa /\ GetParent tree3 1 <> -1 /\
     GetEdgeId tree3 (GetParent tree3 1) 1 <> -1 /\
     GetVariantValue ewa (GetEdgeId tree3 (GetParent tree3 1) 1) = Some w /\
     elem_attrs e = [("branch_length", v_dbl w)]).
Proof.
  do 2 eexists. split; [eval_lhs|].
  eapply (WriteCladeElement_attributes tree3_arrays tree3 1 [] _ (mkLstate [] [])).
  vm_compute. reflexivity.
Defined.

Lemma BuildPhylogeny_layout_witness :
  exists e st', BuildPhylogeny (mkArrays None None) category_tree (mkLstate [] []) = Some (e, st') /\
  elem_name e = "phylogeny" /\ elem_attrs e = [("rooted", "true")] /\
  map elem_name (elem_nested e) =
    (tree_element_tags category_tree ++
     repeat "property" (List.length (tree_property_names (VertexData category_tree))) ++
     ["clade"])%list.
Proof.
  do 2 eexists. split; [eval_lhs|].
  eapply (BuildPhylogeny_layout (mkArrays None None) category_tree (mkLstate [] [])).
  vm_compute. reflexivity.
Defined.

Lemma WriteCladeElement_ledger_fresh_witness :
  ids_nonneg (Root tree3) /\
  exists e st', WriteCladeElement tree3_arrays tree3 (Root tree3) (mkLstate ["weight"] []) = Some (e, st') /\
  fresh_extension ["weight"] (ls_blacklist st').
Proof.
  split; [simpl; repeat split; lia|]. do 2 eexists. split; [eval_lhs|].
  eapply (WriteCladeElement_ledger_fresh tree3_arrays tree3 (Root tree3) (mkLstate ["weight"] [])).
  - simpl. repeat split; lia.
  - vm_compute. reflexivity.
Defined.

Lemma WriteData_ledger_growth_witness :
  ids_nonneg (Root named_tree) /\
  exists r w', WriteData (set_blacklist ["phylogeny.name"] (vtkPhyloXMLTreeWriter_new good_stream))
                 named_tree = Some (r, w') /\
  ((r = 0 /\ Blacklist w' = ["phylogeny.name"]) \/
   (r = 1 /\ exists l, Blacklist w' = (["phylogeny.name"] ++ tree_level_names named_tree ++ l)%list /\
      NoDup l /\
      (forall x, In x l -> ~ In x (["phylogeny.name"] ++ tree_level_names named_tree) /\
         In x (clade_fixed_names (write_arrays (set_blacklist ["phylogeny.name"]
                  (vtkPhyloXMLTreeWriter_new good_stream)) named_tree) named_tree)) /\
      (forall x, In x (clade_fixed_names (write_arrays (set_blacklist ["phylogeny.name"]
                  (vtkPhyloXMLTreeWriter_new good_stream)) named_tree) named_tree) ->
         In x (Blacklist w')))).
Proof.
  split; [simpl; repeat split; lia|]. do 2 eexists. split; [eval_lhs|].
  eapply (WriteData_ledger_growth
            (set_blacklist ["phylogeny.name"] (vtkPhyloXMLTreeWriter_new good_stream)) named_tree).
  - simpl. repeat split; lia.
  - vm_compute. reflexivity.
Defined.

Lemma WriteData_stream_framing_witness :
  exists r w', WriteData (vtkPhyloXMLTreeWriter_new good_stream) tree1 = Some (r, w') /\
  ((os_failed (os_flush (os_write phyloxml_header good_stream)) = true /\ r = 0 /\
    os_text (Stream w') = (os_text good_stream ++ phyloxml_header)%string /\
    ErrorCode w' = os_errno good_stream /\ Blacklist w' = []) \/
   (os_failed (os_flush (os_write phyloxml_header good_stream)) = false /\ r = 1 /\
    exists e st, BuildPhylogeny (write_arrays (vtkPhyloXMLTreeWriter_new good_stream) tree1) tree1
                   (mkLstate [] []) = Some (e, st) /\
      Blacklist w' = ls_blacklist st /\
      os_text (Stream w') =
        (os_text good_stream ++ phyloxml_header ++ PrintXML e ++ "</phyloxml>" ++
         String (ascii_of_nat 10) EmptyString)%string)).
Proof.
  do 2 eexists. split; [eval_lhs|].
  eapply (WriteData_stream_framing (vtkPhyloXMLTreeWriter_new good_stream) tree1).
  vm_compute. reflexivity.
Defined.

Lemma property_info_scan_last_key_wins_witness :
  In "authority" scan_keys /\
  property_info_scan [("authority", IStr "NCBI"); ("authority", IStr "GBIF")] ("", "", "") =
    Some ("GBIF", "", "") /\
  (forall l1 s l2, [("authority", IStr "NCBI"); ("authority", IStr "GBIF")] =
       (l1 ++ ("authority", IStr s) :: l2)%list ->
     (forall s', ~ In ("authority", IStr s') l2) -> info_field "authority" ("GBIF", "", "") = s) /\
  ((forall s', ~ In ("authority", IStr s') [("authority", IStr "NCBI"); ("authority", IStr "GBIF")]) ->
     info_field "authority" ("GBIF", "", "") = info_field "authority" ("", "", "")).
Proof.
  split; [simpl; auto|]. split; [reflexivity|].
  apply (property_info_scan_last_key_wins "authority"
           [("authority", IStr "NCBI"); ("authority", IStr "GBIF")] ("", "", "") ("GBIF", "", "")).
  - simpl; auto.
  - reflexivity.
Defined.

Lemma WritePropertyElement_content_witness :
  exists e st', WritePropertyElement authority_col (-1) (NewElement "phylogeny") (mkLstate [] []) =
                  Some (e, st') /\
  exists au ap un val,
    property_info_scan (col_info authority_col) ("", "", "") = Some (au, ap, un) /\
    GetVariantValue authority_col (if -1 =? -1 then 0 else -1) = Some val /\
    e = appended (NewElement "phylogeny")
          [Elem "property"
             ([("datatype", datatype_of (v_type val));
               ("ref", ((if String.eqb au "" then "VTK" else au) ++ ":" ++
                        property_name (col_name authority_col))%string);
               ("applies_to", if String.eqb ap "" then "clade" else ap)] ++
              (if String.eqb un "" then [] else [("unit", un)]))
             (v_str val) []].
Proof.
  do 2 eexists. split; [eval_lhs|].
  eapply (WritePropertyElement_content authority_col (-1) (NewElement "phylogeny") _ (mkLstate [] [])).
  vm_compute. reflexivity.
Defined.

Lemma WriteNameElement_empty_name_witness :
  NodeNameArray (mkArrays None (Some habitat_col)) = Some habitat_col /\
  GetVariantValue habitat_col 0 = Some (str_value "") /\ v_str (str_value "") = "" /\
  WriteNameElement (mkArrays None (Some habitat_col)) 0 (NewElement "clade") (mkLstate [] []) =
    Some (NewElement "clade",
          mkLstate ([] ++ guard_add [] (Some (col_name habitat_col))) []).
Proof.
  split; [reflexivity|]. split; [reflexivity|]. split; [reflexivity|].
  apply (WriteNameElement_empty_name (mkArrays None (Some habitat_col)) 0 (NewElement "clade")
           (mkLstate [] []) habitat_col (str_value "")); reflexivity.
Defined.

Lemma WriteConfidenceElement_empty_value_witness :
  GetAbstractArray (VertexData empty_confidence_tree) "confidence" = Some empty_confidence_col /\
  GetVariantValue empty_confidence_col 0 = Some (str_value "") /\ v_str (str_value "") = "" /\
  WriteConfidenceElement empty_confidence_tree 0 (NewElement "clade") (mkLstate [] []) =
    Some (NewElement "clade", mkLstate ([] ++ guard_add [] (Some "confidence")) []).
Proof.
  split; [reflexivity|]. split; [reflexivity|]. split; [reflexivity|].
  apply (WriteConfidenceElement_empty_value empty_confidence_tree 0 (NewElement "clade")
           (mkLstate [] []) empty_confidence_col (str_value "")); reflexivity.
Defined.

Lemma non_uchar_color_written_as_property_witness :
  ids_nonneg (VNode 0 []) /\
  GetAbstractArray (VertexData category_tree) "color" = Some double_color_col /\
  col_uchar double_color_col = None /\
  exists e st', WriteCladeElement (mkArrays None None) category_tree (VNode 0 []) (mkLstate [] []) =
                  Some (e, st') /\
  (forall el st0, WriteColorElement category_tree 0 el st0 = Some (el, st0)) /\
  In (0, "color") (ls_emitted st').
Proof.
  split; [simpl; repeat split; lia|]. split; [reflexivity|]. split; [reflexivity|].
  do 2 eexists. split; [eval_lhs|].
  eapply (non_uchar_color_written_as_property (mkArrays None None) category_tree 0 []
            (mkLstate [] []) _ _ double_color_col).
  - simpl. repeat split; lia.
  - reflexivity.
  - reflexivity.
  - reflexivity.
  - reflexivity.
  - discriminate.
  - discriminate.
  - simpl. tauto.
  - vm_compute. reflexivity.
Defined.

(** ** Clade construction and the life of the ledger *)

Lemma clades_appended_nonclade (el : elem) (xs : list elem) :
  Forall (fun x => elem_name x <> "clade") xs -> clades (appended el xs) = clades el.
Proof.
  intros Hx. destruct el as [n a d ns]. simpl. rewrite flat_map_app.
  replace (flat_map _ xs) with (@nil shape); [rewrite app_nil_r; reflexivity|].
  induction Hx as [|x xs Hx _ IH]; simpl; [reflexivity|].
  destruct (String.eqb (elem_name x) "clade") eqn:E; [apply String.eqb_eq in E; contradiction|].
  exact IH.
Qed.

Lemma opt_tag_nonclade (b : bool) (s : string) (xs : list elem) :
  s <> "clade" -> map elem_name xs = opt_tag b s -> Forall (fun x => elem_name x <> "clade") xs.
Proof.
  intros Hs Hm. apply Forall_forall. intros x Hx Hc.
  apply (in_map elem_name) in Hx. rewrite Hm, Hc in Hx.
  destruct b; simpl in Hx; [destruct Hx as [Hx|[]]; congruence | exact Hx].
Qed.

Lemma clade_head_no_clade this input v st pre st1 :
  clade_head this input v st = Some (pre, st1) -> clades pre = [].
Proof.
  intros H. unfold clade_head in H.
  apply bind_Some in H as (e1 & st2 & H1 & H).
  apply bind_Some in H as (e2 & st3 & H2 & H).
  apply bind_Some in H as (e3 & st4 & H3 & H).
  apply bind_Some in H as (e4 & st5 & H4 & H5).
  destruct (clade_properties_loop_appended _ _ _ _ _ _ _ H5) as (xs & -> & Hxs).
  destruct (WriteColorElement_appended _ _ _ _ _ _ H4) as (b3 & l3 & -> & Hl3).
  destruct (WriteConfidenceElement_appended _ _ _ _ _ _ H3) as (b2 & l2 & -> & Hl2).
  destruct (WriteNameElement_appended _ _ _ _ _ _ H2) as (b1 & l1 & -> & Hl1).
  rewrite !clades_appended_nonclade.
  - destruct (WriteBranchLengthAttribute_cases _ _ _ _ _ _ _ H1)
      as [[-> _] | (ewa & w & _ & _ & _ & _ & ->)]; reflexivity.
  - apply (opt_tag_nonclade b1 "name"); [discriminate | exact Hl1].
  - apply (opt_tag_nonclade b2 "confidence"); [discriminate | exact Hl2].
  - apply (opt_tag_nonclade b3 "color"); [discriminate | exact Hl3].
  - eapply Forall_impl; [|exact Hxs]. intros x Hx. rewrite Hx. discriminate.
Qed.

Lemma WriteChildrenClades_run this input kids :
  Forall (fun k => forall st e st', WriteCladeElement this input k st = Some (e, st') ->
                     clade_run this input k st e st') kids ->
  forall el st e st', WriteChildrenClades (WriteCladeElement this input) kids el st = Some (e, st') ->
  exists cs, e = appended el cs /\ children_run this input kids st cs st'.
Proof.
  induction 1 as [|k ks Hk Hks IH]; intros el st e st' H; simpl in H.
  - unfold ret in H. injection H as <- <-. exists []. rewrite appended_nil.
    split; [reflexivity | constructor].
  - apply bind_Some in H as (c & st1 & H1 & H2).
    destruct (IH _ _ _ _ H2) as (cs & -> & Hr).
    exists (c :: cs). rewrite AddNested_appended, appended_app. split; [reflexivity|].
    econstructor; [exact (Hk _ _ _ H1) | exact Hr].
Qed.

(** Each successful clade write is a pre-order construction: the node's own
    content first, then its children's clades in order. *)
Lemma WriteCladeElement_run this input t :
  forall st e st', WriteCladeElement this input t st = Some (e, st') ->
  clade_run this input t st e st'.
Proof.
  revert t. apply (vtree_ind' (fun t => forall st e st',
    WriteCladeElement this input t st = Some (e, st') -> clade_run this input t st e st')).
  intros v kids Hall st e st' H. cbn [WriteCladeElement] in H.
  apply bind_Some in H as (e1 & st1 & H1 & H).
  apply bind_Some in H as (e2 & st2 & H2 & H).
  apply bind_Some in H as (e3 & st3 & H3 & H).
  apply bind_Some in H as (e4 & st4 & H4 & H).
  apply bind_Some in H as (e5 & st5 & H5 & H6).
  assert (Hh : clade_head this input v st = Some (e5, st5)).
  { unfold clade_head.
    rewrite (bind_Some_l _ _ _ _ _ H1), (bind_Some_l _ _ _ _ _ H2), (bind_Some_l _ _ _ _ _ H3),
      (bind_Some_l _ _ _ _ _ H4). exact H5. }
  destruct (WriteChildrenClades_run _ _ _ Hall _ _ _ _ H6) as (cs & -> & Hr).
  econstructor; [exact Hh | exact (clade_head_no_clade _ _ _ _ _ _ Hh) | exact Hr].
Qed.

(** C1: for every tree (vertex ids are never negative), the [phylogeny]
    element built by [WriteData] holds exactly one [clade] child, and the
    nesting of [clade] elements mirrors the tree: one [clade] per node,
    each node's children in the order the tree reports them; the document
    holds exactly as many [clade] elements as the tree has nodes. Moreover
    the [clade] child is built depth-first in pre-order from the state the
    tree-level writers leave: the clade of each node is that node's own
    content (written from its vertex id, holding no clade) followed by the
    clades of its children, built one after the other in the tree's order. *)
Theorem phylogeny_clades_mirror_tree this input st e st' :
  ids_nonneg (Root input) ->
  BuildPhylogeny this input st = Some (e, st') ->
  clades e = [tree_shape (Root input)] /\ count_clades e = tree_size (Root input) /\
  exists r c, e = appended r [c] /\ clades r = [] /\
    clade_run this input (Root input)
      (mkLstate (ls_blacklist st ++ tree_level_names input)
                (ls_emitted st ++ map (fun n => (-1, n)) (tree_property_names (VertexData input))))
      c st'.
Proof.
  intros Hids H.
  destruct (BuildPhylogeny_spec _ _ _ _ _ Hids H) as (Hs & Hc & _).
  split; [exact Hs|]. split; [exact Hc|].
  destruct (BuildPhylogeny_steps _ _ _ _ _ H) as (r4 & c & -> & H5).
  exists r4, c. rewrite AddNested_appended. split; [reflexivity|]. split.
  - pose proof (WriteCladeElement_name _ _ _ _ _ _ H5) as Hn.
    destruct r4 as [n a d ns]. simpl in Hs. rewrite flat_map_app in Hs. simpl in Hs.
    rewrite Hn in Hs. simpl in Hs.
    destruct (flat_map _ ns) eqn:E; [simpl; exact E|]. simpl in Hs. injection Hs as _ Hs.
    destruct l; discriminate Hs.
  - exact (WriteCladeElement_run _ _ _ _ _ _ H5).
Qed.

Lemma phylogeny_clades_mirror_tree_witness :
  ids_nonneg (Root tree3) /\
  exists e st', BuildPhylogeny tree3_arrays tree3 (mkLstate [] []) = Some (e, st') /\
    clades e = [tree_shape (Root tree3)] /\ count_clades e = tree_size (Root tree3) /\
    exists r c, e = appended r [c] /\ clades r = [] /\
      clade_run tree3_arrays tree3 (Root tree3)
        (mkLstate ([] ++ tree_level_names tree3)
                  ([] ++ map (fun n => (-1, n)) (tree_property_names (VertexData tree3))))
        c st'.
Proof.
  split; [simpl; repeat split; lia|].
  eexists; eexists. split; [eval_lhs|].
  eapply (phylogeny_clades_mirror_tree tree3_arrays tree3 (mkLstate [] [])).
  - simpl. repeat split; lia.
  - vm_compute. reflexivity.
Defined.

(** C6 (amended): the ledger is a member of the writer. The constructor
    creates it empty and no write clears it: a write builds its document
    from the ledger as it finds it, only appends names to it, and leaves
    the result in the writer for the next write. *)
Theorem ledger_lives_with_writer os (w : writer) t r w' :
  ids_nonneg (Root t) ->
  WriteData w t = Some (r, w') ->
  Blacklist (vtkPhyloXMLTreeWriter_new os) = [] /\
  (exists l, Blacklist w' = (Blacklist w ++ l)%list) /\
  (r = 1 -> exists e st, BuildPhylogeny (write_arrays w t) t (mkLstate (Blacklist w) []) = Some (e, st) /\
     Blacklist w' = ls_blacklist st).
Proof.
  intros Hids H. split; [reflexivity|].
  destruct (WriteData_ledger _ _ _ _ Hids H) as (_ & _ & Hl & _). split; [exact Hl|].
  intros ->.
  destruct (WriteData_cases _ _ _ _ H) as [(_ & Hr & _) | (_ & _ & e & st & HB & Hbl & _)];
    [discriminate | exists e, st; split; assumption].
Qed.

Lemma ledger_lives_with_writer_witness :
  ids_nonneg (Root weight_tree) /\
  exists r w', WriteData (set_blacklist ["weight"] (vtkPhyloXMLTreeWriter_new good_stream)) weight_tree
                 = Some (r, w') /\
  Blacklist (vtkPhyloXMLTreeWriter_new good_stream) = [] /\
  (exists l, Blacklist w' = (["weight"] ++ l)%list) /\
  (r = 1 -> exists e st, BuildPhylogeny (write_arrays (set_blacklist ["weight"]
                 (vtkPhyloXMLTreeWriter_new good_stream)) weight_tree) weight_tree
                 (mkLstate ["weight"] []) = Some (e, st) /\ Blacklist w' = ls_blacklist st).
Proof.
  split; [simpl; repeat split; lia|]. do 2 eexists. split; [eval_lhs|].
  eapply (ledger_lives_with_writer good_stream
            (set_blacklist ["weight"] (vtkPhyloXMLTreeWriter_new good_stream)) weight_tree).
  - simpl. repeat split; lia.
  - vm_compute. reflexivity.
Defined.
